(** * Watermark style engines: filter pipelines, anchors and style merging

    A shallow embedding of the JavaScript watermark stylers
    (styles/neon.js, styles/holo.js, styles/vintage.js, the basic
    [WatermarkStyler] and the [TikTokDownloader] registry) together with the
    properties of the filter pipelines they hand to ffmpeg.

    Conventions of the embedding.
    - A JavaScript object used as a record or dictionary is a
      [gmap string _]; reading a property that is absent gives [undefined].
    - Template literals are string concatenations of [toString] of the
      interpolated values.
    - Numbers are finite decimals kept exactly, plus [NaN].  This agrees
      with IEEE doubles on the integers below 2^53 and on the short decimal
      constants of the style files; rounding, infinities, signed zero and
      the exponent notation of very large or very small numbers are outside
      the model. *)

From Stdlib Require Import ZArith QArith Qminmax String Ascii List DecimalString Lia.
From Stdlib Require DecimalPos DecimalN.
From stdpp Require Import gmap strings list fin_maps.

Local Open Scope string_scope.
Local Open Scope Z_scope.

(** ** Numbers *)

Module Num.

(** [Dec m e] is the number [m * 10^-e]. *)
Inductive num :=
| NaN
| Dec (m : Z) (e : nat).

#[global] Instance num_eq_dec : EqDecision num.
Proof. solve_decision. Defined.

(** Canonical form: no trailing zero in the fraction. *)
Fixpoint norm (m : Z) (e : nat) : num :=
  match e with
  | O => Dec m O
  | S e' => if (m mod 10 =? 0) then norm (m / 10) e' else Dec m e
  end.

Definition canon (a : num) : num :=
  match a with NaN => NaN | Dec m e => norm m e end.

Definition ofZ (z : Z) : num := Dec z 0.

(** Decimal literal [m * 10^-e], for instance [lit 15 1] for [1.5]. *)
Definition lit (m : Z) (e : nat) : num := norm m e.

Definition pow10 (e : nat) : Z := 10 ^ Z.of_nat e.

(** Mantissas of two numbers brought to the common exponent. *)
Definition align (m1 : Z) (e1 : nat) (m2 : Z) (e2 : nat) : Z * Z * nat :=
  let e := Nat.max e1 e2 in
  (m1 * pow10 (e - e1), m2 * pow10 (e - e2), e).

(** The exact sum.  A double agrees when both operands and the sum are
    integers in the range [safe] below; elsewhere it may round. *)
Definition add (a b : num) : num :=
  match a, b with
  | Dec m1 e1, Dec m2 e2 =>
      let '(x, y, e) := align m1 e1 m2 e2 in norm (x + y) e
  | _, _ => NaN
  end.

(** The exact product.  A double agrees when both operands and the product
    are integers in the range [safe] below; on decimal fractions it may
    round (0.75 * 0.6 prints with sixteen digits in JavaScript). *)
Definition mul (a b : num) : num :=
  match a, b with
  | Dec m1 e1, Dec m2 e2 => norm (m1 * m2) (e1 + e2)
  | _, _ => NaN
  end.

(** [a < b]; false as soon as one side is [NaN]. *)
Definition ltb (a b : num) : bool :=
  match a, b with
  | Dec m1 e1, Dec m2 e2 =>
      let '(x, y, _) := align m1 e1 m2 e2 in x <? y
  | _, _ => false
  end.

Definition is_zero (a : num) : bool :=
  match a with Dec m _ => m =? 0 | NaN => false end.

Definition is_nan (a : num) : bool :=
  match a with NaN => true | _ => false end.

(** [Math.floor]. *)
Definition floor (a : num) : num :=
  match a with
  | NaN => NaN
  | Dec m e => Dec (m / pow10 e) 0
  end.

(** [Math.min] of two arguments. *)
Definition min (a b : num) : num :=
  match a, b with
  | NaN, _ | _, NaN => NaN
  | _, _ => if ltb b a then canon b else canon a
  end.


Definition showN (n : N) : string := NilZero.string_of_uint (N.to_uint n).

Fixpoint zeros (k : nat) : string :=
  match k with O => "" | S k' => String "0" (zeros k') end.

(** Left padding with zeros up to [width] characters. *)
Definition pad (width : nat) (s : string) : string :=
  zeros (width - String.length s) +:+ s.

(** [Number.prototype.toString] in radix 10, digit by digit.  JavaScript
    switches to exponent notation from 1e21 up and below 1e-6; such numbers
    are outside the model. *)
Definition show (a : num) : string :=
  match canon a with
  | NaN => "NaN"
  | Dec m e =>
      let a := Z.abs m in
      let ip := showN (Z.to_N (a / pow10 e)) in
      let body :=
        match e with
        | O => ip
        | _ => ip +:+ "." +:+ pad e (showN (Z.to_N (a mod pow10 e)))
        end in
      if m <? 0 then "-" +:+ body else body
  end.

(** The integers up to 2^53 in magnitude: a double holds each of them
    exactly, sums and products of them that stay in the range are computed
    without rounding, and they are printed digit by digit.  The statements
    about sums, products and printed integers below are made within this
    range. *)
Definition safe (z : Z) : Prop := Z.abs z <= 2 ^ 53.

End Num.

Export Num(num, NaN, Dec).

(** ** Characters and strings *)

Module Str.

Definition is_digit (c : ascii) : bool :=
  let n := N_of_ascii c in ((48 <=? n) && (n <=? 57))%N.

Definition digit_val (c : ascii) : Z := Z.of_N (N_of_ascii c) - 48.

(** Value of a hexadecimal digit, if [c] is one. *)
Definition hex_val (c : ascii) : option Z :=
  let n := N_of_ascii c in
  if ((48 <=? n) && (n <=? 57))%N then Some (Z.of_N n - 48)
  else if ((97 <=? n) && (n <=? 102))%N then Some (Z.of_N n - 87)
  else if ((65 <=? n) && (n <=? 70))%N then Some (Z.of_N n - 55)
  else None.

(** ASCII white space and line terminators. *)
Definition is_space (c : ascii) : bool :=
  let n := N_of_ascii c in
  ((n =? 32) || (n =? 9) || (n =? 10) || (n =? 11) || (n =? 12) || (n =? 13))%N.

Fixpoint trim_left (s : string) : string :=
  match s with
  | String c s' => if is_space c then trim_left s' else s
  | EmptyString => EmptyString
  end.

Definition trim_right (s : string) : string :=
  String.rev (trim_left (String.rev s)).

Definition trim (s : string) : string := trim_right (trim_left s).

(** Longest prefix of decimal digits: its value, its length, and the rest. *)
Fixpoint digits (acc : Z) (k : nat) (s : string) : Z * nat * string :=
  match s with
  | String c s' =>
      if is_digit c then digits (acc * 10 + digit_val c) (S k) s' else (acc, k, s)
  | EmptyString => (acc, k, s)
  end.

Fixpoint hex_digits (acc : Z) (k : nat) (s : string) : Z * nat * string :=
  match s with
  | String c s' =>
      match hex_val c with
      | Some d => hex_digits (acc * 16 + d) (S k) s'
      | None => (acc, k, s)
      end
  | EmptyString => (acc, k, s)
  end.

(** An optional sign: [(negative, rest)]. *)
Definition sign (s : string) : bool * string :=
  match s with
  | String "-" s' => (true, s')
  | String "+" s' => (false, s')
  | _ => (false, s)
  end.

(** [haystack] cut at the first occurrence of [needle]. *)
Fixpoint split_first (needle haystack : string) : option (string * string) :=
  if String.prefix needle haystack
  then Some ("", String.substring (String.length needle)
                   (String.length haystack - String.length needle) haystack)
  else match haystack with
       | EmptyString => None
       | String c h' =>
           match split_first needle h' with
           | Some (b, a) => Some (String c b, a)
           | None => None
           end
       end.

(** [Array.prototype.join]. *)
Fixpoint join (sep : string) (l : list string) : string :=
  match l with
  | [] => ""
  | [x] => x
  | x :: l' => x +:+ sep +:+ join sep l'
  end.


(** Whether the character [c] occurs in [s]. *)
Fixpoint has_char (c : ascii) (s : string) : bool :=
  match s with
  | EmptyString => false
  | String c' s' => Ascii.eqb c c' || has_char c s'
  end.

End Str.

(** ** JavaScript values and operators *)

Module JS.

(** The primitive values a style field can hold: [undefined], [null],
    booleans, numbers and strings.  Symbols, BigInts and objects, on which a
    template literal or an arithmetic operator can throw, are not style
    values here: every statement about a style is about a style made of
    these five kinds of value. *)
Inductive value :=
| VUndef
| VNull
| VBool (b : bool)
| VNum (n : num)
| VStr (s : string).

#[global] Instance value_eq_dec : EqDecision value.
Proof. solve_decision. Defined.

(** [ToString], as applied by a template literal's interpolation. *)
Definition toString (v : value) : string :=
  match v with
  | VUndef => "undefined"
  | VNull => "null"
  | VBool true => "true"
  | VBool false => "false"
  | VNum n => Num.show n
  | VStr s => s
  end.

(** [StringToNumber] on plain decimal literals: optional sign, digits,
    optional fraction.  The empty string is 0; anything else is [NaN]
    (exponents, hexadecimal literals and [Infinity] are outside the
    number model). *)
Definition stringToNumber (s : string) : num :=
  let t := Str.trim s in
  match t with
  | EmptyString => Num.ofZ 0
  | _ =>
      let '(neg, t1) := Str.sign t in
      let '(ip, ni, t2) := Str.digits 0 0 t1 in
      let '(m, nf, t3) :=
        match t2 with
        | String "." t2' => let '(m, nf, t3) := Str.digits ip 0 t2' in (m, nf, t3)
        | _ => (ip, O, t2)
        end in
      match t3 with
      | EmptyString =>
          if (ni + nf =? 0)%nat then NaN
          else Num.lit (if neg then - m else m) nf
      | _ => NaN
      end
  end.

(** [ToNumber]. *)
Definition toNumber (v : value) : num :=
  match v with
  | VUndef => NaN
  | VNull => Num.ofZ 0
  | VBool true => Num.ofZ 1
  | VBool false => Num.ofZ 0
  | VNum n => n
  | VStr s => stringToNumber s
  end.

(** [ToBoolean]. *)
Definition truthy (v : value) : bool :=
  match v with
  | VUndef | VNull => false
  | VBool b => b
  | VNum n => negb (Num.is_zero n || Num.is_nan n)
  | VStr s => negb (String.eqb s "")
  end.

(** The global [parseInt] with no radix argument. *)
Definition parseInt (s : string) : num :=
  let '(neg, t) := Str.sign (Str.trim_left s) in
  let '(m, k, _) :=
    match t with
    | String "0" (String "x" t') | String "0" (String "X" t') => Str.hex_digits 0 0 t'
    | _ => Str.digits 0 0 t
    end in
  match k with
  | O => NaN
  | _ => Num.ofZ (if neg then - m else m)
  end.

Definition is_string (v : value) : bool :=
  match v with VStr _ => true | _ => false end.

(** [a + b]: concatenation as soon as one operand is a string. *)
Definition add (a b : value) : value :=
  if is_string a || is_string b
  then VStr (toString a +:+ toString b)
  else VNum (Num.add (toNumber a) (toNumber b)).

(** [a * b]. *)
Definition mul (a b : value) : value :=
  VNum (Num.mul (toNumber a) (toNumber b)).

(** [a > n] against a number literal [n]. *)
Definition gt_num (a : value) (n : num) : bool := Num.ltb n (toNumber a).

(** [a === s] against a string literal [s]. *)
Definition strict_eq_str (a : value) (s : string) : bool :=
  match a with VStr s' => String.eqb s' s | _ => false end.

(** Number literals of the source. *)
Definition int (z : Z) : value := VNum (Num.ofZ z).
Definition dec (m : Z) (e : nat) : value := VNum (Num.lit m e).

(** [GetSubstitution] for a string pattern (there are no captures):
    [$$], [$&], [$`] and [$'] are expanded, any other [$] is literal. *)
Fixpoint getSubstitution (matched before after repl : string) : string :=
  match repl with
  | String "$" (String "$" r) => String "$" (getSubstitution matched before after r)
  | String "$" (String "&" r) => matched +:+ getSubstitution matched before after r
  | String "$" (String "`" r) => before +:+ getSubstitution matched before after r
  | String "$" (String "'" r) => after +:+ getSubstitution matched before after r
  | String c r => String c (getSubstitution matched before after r)
  | EmptyString => EmptyString
  end.

(** [String.prototype.replace] with a string pattern: the first occurrence
    only. *)
Definition replace (s pattern repl : string) : string :=
  match Str.split_first pattern s with
  | Some (before, after) =>
      before +:+ getSubstitution pattern before after repl +:+ after
  | None => s
  end.

(** *** Objects *)

(** An object literal with primitive fields. *)
Abbreviation obj := (gmap string value).

(** [o.k] for a fixed field name [k] (none of the style field names is
    inherited from [Object.prototype]). *)
Definition getp (o : obj) (k : string) : value := default VUndef (o !! k).

(** The names every plain object inherits from [Object.prototype]. *)
Definition objectPrototype : list string :=
  [ "constructor"; "__defineGetter__"; "__defineSetter__"; "hasOwnProperty";
    "__lookupGetter__"; "__lookupSetter__"; "isPrototypeOf";
    "propertyIsEnumerable"; "toString"; "valueOf"; "__proto__";
    "toLocaleString" ].

(** What a computed property read [o[key]] finds on a plain object whose own
    properties hold values of type [A]. *)
Inductive slot (A : Type) :=
| Own (a : A)
| Inherited (name : string)
| Missing.
Arguments Own {A} a.
Arguments Inherited {A} name.
Arguments Missing {A}.

Definition getComputed {A} (o : gmap string A) (key : value) : slot A :=
  let k := toString key in
  match o !! k with
  | Some a => Own a
  | None => if bool_decide (k ∈ objectPrototype) then Inherited k else Missing
  end.

(** [CopyDataProperties]: every own property of [source] is written into
    [target], one at a time. *)
Definition copyDataProperties (target source : obj) : obj :=
  map_fold (λ k v acc, <[k := v]> acc) target source.

(** The object literal [{ ...a, ...b }]. *)
Definition spread2 (a b : obj) : obj :=
  copyDataProperties (copyDataProperties ∅ a) b.

(** A parameter declared [customStyle = {}]: the default applies when the
    argument is omitted. *)
Definition orEmpty (arg : option obj) : obj := default ∅ arg.

(** *** Abrupt completion *)

Inductive error :=
| TypeError (msg : string).

Inductive completion (A : Type) :=
| Normal (a : A)
| Throw (e : error).
Arguments Normal {A} a.
Arguments Throw {A} e.

#[global] Instance completion_ret : MRet completion := λ A a, Normal a.

#[global] Instance completion_bind : MBind completion := λ A B k c,
  match c with
  | Normal a => k a
  | Throw e => Throw e
  end.

(** [v.toString()]: a property read on [undefined] or [null] throws. *)
Definition callToString (v : value) : completion string :=
  match v with
  | VUndef => Throw (TypeError "Cannot read properties of undefined (reading 'toString')")
  | VNull => Throw (TypeError "Cannot read properties of null (reading 'toString')")
  | _ => Normal (toString v)
  end.

End JS.

Import JS.

Notation "o !. k" := (getp o k) (at level 20, format "o !. k").
Notation "$ v" := (toString v) (at level 9, v at level 9, format "$ v").

(** ** What the stylers share *)

(** *** Anchors *)

(** A position literal [{ x: ..., y: ... }]. *)
Record point := { px : value; py : value }.

#[global] Instance point_eq_dec : EqDecision point.
Proof. solve_decision. Defined.

(** The table of the seven named anchors; [w], [h], [tw] and [th] are
    ffmpeg's names for the frame and text sizes. *)
Definition positions (offsetX offsetY : value) : gmap string point :=
  list_to_map
    [ ("top-left", {| px := offsetX; py := offsetY |});
      ("top-right", {| px := VStr ("w-tw-" +:+ $offsetX); py := offsetY |});
      ("bottom-left", {| px := offsetX; py := VStr ("h-th-" +:+ $offsetY) |});
      ("bottom-right", {| px := VStr ("w-tw-" +:+ $offsetX);
                          py := VStr ("h-th-" +:+ $offsetY) |});
      ("center", {| px := VStr "(w-tw)/2"; py := VStr "(h-th)/2" |});
      ("top-center", {| px := VStr "(w-tw)/2"; py := offsetY |});
      ("bottom-center", {| px := VStr "(w-tw)/2"; py := VStr ("h-th-" +:+ $offsetY) |}) ].

(** [positions[position] || positions[fallback]]: the left operand is kept
    when it is truthy, and every object or function is. *)
Definition calculatePosition (fallback : string)
    (position offsetX offsetY : value) : slot point :=
  let positions := positions offsetX offsetY in
  match getComputed positions position with
  | Missing => getComputed positions (VStr fallback)
  | found => found
  end.

(** [position.x] and [position.y].  A function or prototype object found
    through the prototype chain has neither property; [Missing] is never
    returned by [calculatePosition] (lemma [calculatePosition_found]). *)
Definition pos_x (p : slot point) : value :=
  match p with Own q => px q | _ => VUndef end.
Definition pos_y (p : slot point) : value :=
  match p with Own q => py q | _ => VUndef end.

(** The seven anchor names. *)
Definition anchors : list string :=
  [ "top-left"; "top-right"; "bottom-left"; "bottom-right"; "center";
    "top-center"; "bottom-center" ].

(** *** Text layers *)

(** The fields every [drawtext=...] template of the stylers fills in;
    [dt_opts] is what a template adds after the font. *)
Record drawtext := {
  dt_text : value;
  dt_fontsize : value;
  dt_fontcolor : string;
  dt_alpha : string;
  dt_x : string;
  dt_y : string;
  dt_font : value;
  dt_opts : string
}.

(** The template
    [drawtext=text='T':fontsize=S:fontcolor=C@A:x=X:y=Y:font='F'] followed
    by the layer's own options. *)
Definition render (l : drawtext) : string :=
  "drawtext=text='" +:+ $(dt_text l) +:+ "':fontsize=" +:+ $(dt_fontsize l)
  +:+ ":fontcolor=" +:+ dt_fontcolor l +:+ "@" +:+ dt_alpha l
  +:+ ":x=" +:+ dt_x l +:+ ":y=" +:+ dt_y l
  +:+ ":font='" +:+ $(dt_font l) +:+ "'" +:+ dt_opts l.

(** The layer [l] with another opacity. *)
Definition withAlpha (l : drawtext) (alpha : string) : drawtext :=
  {| dt_text := dt_text l; dt_fontsize := dt_fontsize l; dt_fontcolor := dt_fontcolor l;
     dt_alpha := alpha; dt_x := dt_x l; dt_y := dt_y l; dt_font := dt_font l;
     dt_opts := dt_opts l |}.

(** A pipeline entry that draws text. *)
Definition isTextOp (s : string) : bool := String.prefix "drawtext=" s.

(** The opacity of a layer, when its template spells it as a number. *)
Definition alphaOf (l : drawtext) : num := stringToNumber (dt_alpha l).

Fixpoint strictlyIncreasing (l : list num) : bool :=
  match l with
  | a :: (b :: _) as l' => Num.ltb a b && strictlyIncreasing l'
  | _ => true
  end.

Fixpoint strictlyDecreasing (l : list num) : bool :=
  match l with
  | a :: (b :: _) as l' => Num.ltb b a && strictlyDecreasing l'
  | _ => true
  end.

(** [layers.push(s)]. *)
Definition push (layers : list string) (s : string) : list string := layers ++ [s].

(** [items.forEach(item => layers.push(...))]: the layers of the items are
    appended in order. *)
Definition pushAll (layers more : list string) : list string := layers ++ more.

(** *** The render job handed to ffmpeg *)

Inductive filterKind := ComplexFilter | VideoFilters.

Record command := {
  cmd_input : string;
  cmd_kind : filterKind;
  cmd_filter : string;
  cmd_outputOptions : list string;
  cmd_output : string
}.

(** ** The neon styler (styles/neon.js) *)

Module Neon.

Definition defaultStyle : obj :=
  list_to_map
    [ ("text", VStr "NEON"); ("font", VStr "Arial Bold"); ("fontSize", int 52);
      ("primaryColor", VStr "#00ffff"); ("secondaryColor", VStr "#ff00ff");
      ("glowColor", VStr "#00ffff"); ("opacity", dec 85 2); ("rotation", int 0);
      ("position", VStr "top-right"); ("offsetX", int 40); ("offsetY", int 40);
      ("glowIntensity", int 8); ("enableDoubleStroke", VBool true);
      ("strokeWidth", int 3); ("animationSpeed", dec 5 1);
      ("blinkEffect", VBool false); ("scanlineEffect", VBool true) ].

Definition _calculatePosition : value → value → value → slot point :=
  calculatePosition "top-right".

(** A glow layer: the style's text in the glow colour at the anchor. *)
Definition glow (style : obj) (position : slot point)
    (fontsize : value) (alpha : string) : drawtext :=
  {| dt_text := style!."text"; dt_fontsize := fontsize;
     dt_fontcolor := $(style!."glowColor"); dt_alpha := alpha;
     dt_x := $(pos_x position); dt_y := $(pos_y position);
     dt_font := style!."font"; dt_opts := "" |}.

(** The main text layer, with or without the second stroke. *)
Definition main (style : obj) (position : slot point) (stroke : bool) : drawtext :=
  {| dt_text := style!."text"; dt_fontsize := style!."fontSize";
     dt_fontcolor := $(style!."primaryColor"); dt_alpha := $(style!."opacity");
     dt_x := $(pos_x position); dt_y := $(pos_y position);
     dt_font := style!."font";
     dt_opts := if stroke
                then ":borderw=" +:+ $(style!."strokeWidth")
                     +:+ ":bordercolor=" +:+ $(style!."secondaryColor")
                else "" |}.

Definition blinkModulation (style : obj) : string :=
  "if(mod(floor(t*" +:+ $(mul (style!."animationSpeed") (int 2)) +:+ "),2),"
  +:+ $(style!."opacity") +:+ "," +:+ $(mul (style!."opacity") (dec 3 1)) +:+ ")".

(** The [layers] array of [_buildNeonFilter] when it is joined. *)
Definition layersOf (style : obj) : list string :=
  let position :=
    _calculatePosition (style!."position") (style!."offsetX") (style!."offsetY") in
  let layers := [] in
  let layers := push layers (render (glow style position
      (add (style!."fontSize") (mul (style!."glowIntensity") (int 2))) "0.2")) in
  let layers := push layers (render (glow style position
      (add (style!."fontSize") (style!."glowIntensity")) "0.4")) in
  let layers := push layers (render (glow style position
      (add (style!."fontSize") (int 2)) "0.6")) in
  let layers :=
    if truthy (style!."enableDoubleStroke")
    then push layers (render (main style position true))
    else push layers (render (main style position false)) in
  let layers :=
    if truthy (style!."blinkEffect")
    then alter (λ layer, replace layer ("@" +:+ $(style!."opacity"))
                                       ("@" +:+ blinkModulation style))
               (length layers - 1)%nat layers
    else layers in
  layers.

Definition _buildNeonFilter (style : obj) : string := Str.join "," (layersOf style).

(** The same pipeline seen layer by layer: the three glow layers, largest
    first, and the main text as it stands at the end of the array. *)
Definition positionOf (style : obj) : slot point :=
  _calculatePosition (style!."position") (style!."offsetX") (style!."offsetY").

Definition glowLayers (style : obj) : list drawtext :=
  [ glow style (positionOf style)
      (add (style!."fontSize") (mul (style!."glowIntensity") (int 2))) "0.2";
    glow style (positionOf style)
      (add (style!."fontSize") (style!."glowIntensity")) "0.4";
    glow style (positionOf style) (add (style!."fontSize") (int 2)) "0.6" ].

Definition mainLayer (style : obj) : drawtext :=
  main style (positionOf style) (truthy (style!."enableDoubleStroke")).

Definition mainText (style : obj) : string :=
  if truthy (style!."blinkEffect")
  then replace (render (mainLayer style)) ("@" +:+ $(style!."opacity"))
               ("@" +:+ blinkModulation style)
  else render (mainLayer style).

(** [applyToVideo]: the job that is started; the returned promise settles
    with ffmpeg's [end] or [error] event. *)
Definition applyToVideo (inputPath outputPath : string) (customStyle : option obj)
    : completion command :=
  let style := spread2 defaultStyle (orEmpty customStyle) in
  let complexFilter := _buildNeonFilter style in
  mret {| cmd_input := inputPath; cmd_kind := ComplexFilter;
          cmd_filter := complexFilter;
          cmd_outputOptions := [ "-c:v libx264"; "-c:a copy"; "-preset medium";
                                 "-crf 20"; "-pix_fmt yuv420p" ];
          cmd_output := outputPath |}.

(** The style object of [applyPulsingNeon]: the two trailing properties of
    the literal are written after both spreads. *)
Definition pulsingStyle (customStyle : option obj) : obj :=
  <["blinkEffect" := VBool false]>
    (<["animationSpeed" := dec 15 1]>
       (spread2 defaultStyle (orEmpty customStyle))).

(** The [complexFilter] of [applyPulsingNeon]. *)
Definition pulsingFilter (style : obj) : string :=
  let position :=
    _calculatePosition (style!."position") (style!."offsetX") (style!."offsetY") in
  let pulseExpression :=
    $(style!."opacity") +:+ "*(0.7+0.3*sin(t*"
    +:+ $(mul (style!."animationSpeed") (int 3)) +:+ "))" in
  let glowExpression :=
    "0.4*(0.5+0.5*sin(t*" +:+ $(mul (style!."animationSpeed") (int 2)) +:+ "))" in
  Str.join ","
    [ render (glow style position
                (add (style!."fontSize") (mul (style!."glowIntensity") (int 3)))
                glowExpression);
      render (glow style position
                (add (style!."fontSize") (style!."glowIntensity")) glowExpression);
      render {| dt_text := style!."text"; dt_fontsize := style!."fontSize";
                dt_fontcolor := $(style!."primaryColor"); dt_alpha := pulseExpression;
                dt_x := $(pos_x position); dt_y := $(pos_y position);
                dt_font := style!."font";
                dt_opts := ":borderw=" +:+ $(style!."strokeWidth")
                           +:+ ":bordercolor=" +:+ $(style!."secondaryColor") |} ].

Definition applyPulsingNeon (inputPath outputPath : string) (customStyle : option obj)
    : completion command :=
  let style := pulsingStyle customStyle in
  mret {| cmd_input := inputPath; cmd_kind := ComplexFilter;
          cmd_filter := pulsingFilter style;
          cmd_outputOptions := [ "-c:v libx264"; "-c:a copy"; "-preset medium";
                                 "-crf 18" ];
          cmd_output := outputPath |}.

(** The opacity of the text layer of [createLogoReveal], as the template
    spells it. *)
Definition revealOpacity (style : obj) : string :=
  "min(t*0.5," +:+ $(style!."opacity") +:+ ")".

(** [Math.min(20, v)]. *)
Definition min20 (v : value) : value := VNum (Num.min (Num.ofZ 20) (toNumber v)).

(** The [revealFilter] of [createLogoReveal]. *)
Definition revealFilter (style : obj) : string :=
  let position :=
    _calculatePosition (style!."position") (style!."offsetX") (style!."offsetY") in
  Str.join ","
    [ render {| dt_text := style!."text"; dt_fontsize := style!."fontSize";
                dt_fontcolor := $(style!."primaryColor");
                dt_alpha := revealOpacity style;
                dt_x := $(pos_x position); dt_y := $(pos_y position);
                dt_font := style!."font"; dt_opts := "" |};
      render (glow style position
                (add (style!."fontSize") (min20 (mul (style!."glowIntensity") (int 2))))
                "min(t*0.3,0.4)") ].


(** The filter of [_buildStaticNeonFilter], built by appending to one
    string. *)
Definition _buildStaticNeonFilter (style : obj) : string :=
  let position :=
    _calculatePosition (style!."position") (style!."offsetX") (style!."offsetY") in
  let filter :=
    render (glow style position
              (add (style!."fontSize") (mul (style!."glowIntensity") (int 2))) "0.15")
    +:+ "," in
  let filter :=
    filter +:+ render (glow style position
                         (add (style!."fontSize") (style!."glowIntensity")) "0.3")
    +:+ "," in
  let filter :=
    filter +:+ render (glow style position (add (style!."fontSize") (int 2)) "0.5")
    +:+ "," in
  let filter := filter +:+ render (main style position true) in
  filter.

Definition applyToImage (inputPath outputPath : string) (customStyle : option obj)
    : completion command :=
  let style := spread2 defaultStyle (orEmpty customStyle) in
  let filter := _buildStaticNeonFilter style in
  mret {| cmd_input := inputPath; cmd_kind := VideoFilters; cmd_filter := filter;
          cmd_outputOptions := [ "-q:v 1" ]; cmd_output := outputPath |}.

(** The object [getPresetStyles] returns, as its properties in the order
    the literal lists them (the order of [Object.keys]). *)
Definition getPresetStyles : list (string * obj) :=
  [ ("cyberpunk",
     list_to_map
       [ ("text", VStr "CYBER"); ("primaryColor", VStr "#00ffff");
         ("secondaryColor", VStr "#ff00ff"); ("glowColor", VStr "#00ffff");
         ("fontSize", int 48); ("glowIntensity", int 10);
         ("blinkEffect", VBool true); ("position", VStr "center") ]);
    ("retro",
     list_to_map
       [ ("text", VStr "RETRO"); ("primaryColor", VStr "#ff6b9d");
         ("secondaryColor", VStr "#4ecdc4"); ("glowColor", VStr "#ff6b9d");
         ("fontSize", int 56); ("glowIntensity", int 6);
         ("position", VStr "top-center") ]);
    ("electric",
     list_to_map
       [ ("text", VStr "ELECTRIC"); ("primaryColor", VStr "#ffff00");
         ("secondaryColor", VStr "#0000ff"); ("glowColor", VStr "#ffffff");
         ("fontSize", int 44); ("glowIntensity", int 12);
         ("animationSpeed", int 2); ("position", VStr "bottom-right") ]);
    ("minimal",
     list_to_map
       [ ("text", VStr "MINIMAL"); ("primaryColor", VStr "#ffffff");
         ("secondaryColor", VStr "#00ffff"); ("glowColor", VStr "#00ffff");
         ("fontSize", int 36); ("glowIntensity", int 4); ("opacity", dec 7 1);
         ("position", VStr "bottom-left") ]);
    ("synthwave",
     list_to_map
       [ ("text", VStr "SYNTHWAVE"); ("primaryColor", VStr "#ff007f");
         ("secondaryColor", VStr "#00d4ff"); ("glowColor", VStr "#ff007f");
         ("fontSize", int 40); ("glowIntensity", int 8);
         ("blinkEffect", VBool false); ("position", VStr "top-right") ]) ].

End Neon.

(** ** The holographic styler (styles/holo.js) *)

Module Holo.

Definition defaultStyle : obj :=
  list_to_map
    [ ("text", VStr "HOLOGRAM"); ("font", VStr "Arial Bold"); ("fontSize", int 50);
      ("primaryColor", VStr "#00ffff"); ("secondaryColor", VStr "#ff00ff");
      ("tertiaryColor", VStr "#ffff00"); ("accentColor", VStr "#00ff00");
      ("opacity", dec 8 1); ("rotation", int 0); ("position", VStr "center");
      ("offsetX", int 0); ("offsetY", int 0); ("scanlineSpeed", int 2);
      ("glitchIntensity", dec 3 1); ("chromaticAberration", int 3);
      ("enableScanlines", VBool true); ("enableGlitch", VBool true);
      ("enableRainbow", VBool true); ("enableFlicker", VBool false);
      ("hologramDepth", int 5); ("interferencePattern", VBool true);
      ("prismEffect", VBool true) ].

Definition _calculatePosition : value → value → value → slot point :=
  calculatePosition "center".

Definition rainbowColors : list string :=
  [ "#ff0000"; "#ff7f00"; "#ffff00"; "#00ff00"; "#0000ff"; "#4b0082"; "#9400d3" ].

(** A layer of the style's text at the style's font size. *)
Definition layer (style : obj) (fontcolor alpha x y : string) : drawtext :=
  {| dt_text := style!."text"; dt_fontsize := style!."fontSize";
     dt_fontcolor := fontcolor; dt_alpha := alpha; dt_x := x; dt_y := y;
     dt_font := style!."font"; dt_opts := "" |}.

(** The callback of [rainbowColors.forEach]. *)
Definition rainbowLayer (style : obj) (position : slot point)
    (index : nat) (color : string) : string :=
  let index := int (Z.of_nat index) in
  let phase := mul index (dec 5 1) in
  let colorOpacity :=
    $(mul (style!."opacity") (dec 6 1)) +:+ "*abs(sin(t*" +:+ $(style!."scanlineSpeed")
    +:+ "+" +:+ $phase +:+ "))" in
  render (layer style color colorOpacity
            ($(pos_x position) +:+ "+" +:+ $index)
            ($(pos_y position) +:+ "+" +:+ $index)).

(** The three colour-separated layers. *)
Definition chromaticLayers (style : obj) (position : slot point) : list string :=
  let offset := style!."chromaticAberration" in
  let alpha := $(mul (style!."opacity") (dec 7 1)) in
  [ render (layer style "#ff0000" alpha ($(pos_x position) +:+ "-" +:+ $offset)
              $(pos_y position));
    render (layer style "#00ff00" alpha $(pos_x position) $(pos_y position));
    render (layer style "#0000ff" alpha ($(pos_x position) +:+ "+" +:+ $offset)
              $(pos_y position)) ].

Definition interferenceLayer (style : obj) (position : slot point) : string :=
  let patternOpacity :=
    $(mul (style!."opacity") (dec 4 1)) +:+ "*abs(sin(t*"
    +:+ $(mul (style!."scanlineSpeed") (int 3)) +:+ "))" in
  render {| dt_text := style!."text"; dt_fontsize := add (style!."fontSize") (int 2);
            dt_fontcolor := $(style!."primaryColor"); dt_alpha := patternOpacity;
            dt_x := $(pos_x position); dt_y := $(pos_y position);
            dt_font := style!."font"; dt_opts := "" |}.

Definition glitchLayer (style : obj) (position : slot point) : string :=
  let glitchX :=
    $(pos_x position) +:+ "+" +:+ $(mul (style!."glitchIntensity") (int 10))
    +:+ "*sin(t*" +:+ $(mul (style!."scanlineSpeed") (int 5)) +:+ ")" in
  let glitchY :=
    $(pos_y position) +:+ "+" +:+ $(mul (style!."glitchIntensity") (int 5))
    +:+ "*cos(t*" +:+ $(mul (style!."scanlineSpeed") (int 7)) +:+ ")" in
  let glitchOpacity :=
    $(style!."opacity") +:+ "*if(mod(floor(t*"
    +:+ $(mul (style!."scanlineSpeed") (int 4)) +:+ "),8),1,0.3)" in
  render (layer style $(style!."secondaryColor") glitchOpacity glitchX glitchY).

Definition prismColors (style : obj) : list value :=
  [ style!."primaryColor"; style!."secondaryColor"; style!."tertiaryColor";
    style!."accentColor" ].

(** The callback of [prismColors.forEach]. *)
Definition prismLayer (style : obj) (position : slot point)
    (index : nat) (color : value) : string :=
  let index := int (Z.of_nat index) in
  let prismOffset := mul index (int 2) in
  let prismOpacity :=
    $(mul (style!."opacity") (dec 8 1)) +:+ "*abs(sin(t*" +:+ $(style!."scanlineSpeed")
    +:+ "+" +:+ $index +:+ "))" in
  render (layer style $color prismOpacity
            ($(pos_x position) +:+ "+" +:+ $prismOffset)
            ($(pos_y position) +:+ "+" +:+ $prismOffset)).

Definition flickerLayer (style : obj) (position : slot point) : string :=
  let flickerOpacity :=
    $(style!."opacity") +:+ "*if(mod(floor(t*"
    +:+ $(mul (style!."scanlineSpeed") (int 8)) +:+ "),3),1,0.1)" in
  render (layer style $(style!."primaryColor") flickerOpacity
            $(pos_x position) $(pos_y position)).

(** The [layers] array of [_buildHolographicFilter] when it is joined. *)
Definition layersOf (style : obj) : list string :=
  let position :=
    _calculatePosition (style!."position") (style!."offsetX") (style!."offsetY") in
  let layers := [] in
  let layers :=
    if truthy (style!."enableRainbow")
    then pushAll layers (imap (rainbowLayer style position) rainbowColors)
    else layers in
  let layers :=
    if gt_num (style!."chromaticAberration") (Num.ofZ 0)
    then pushAll layers (chromaticLayers style position)
    else layers in
  let layers :=
    if truthy (style!."interferencePattern")
    then push layers (interferenceLayer style position)
    else layers in
  let layers :=
    if truthy (style!."enableGlitch")
    then push layers (glitchLayer style position)
    else layers in
  let layers :=
    if truthy (style!."prismEffect")
    then pushAll layers (imap (prismLayer style position) (prismColors style))
    else layers in
  let layers :=
    if truthy (style!."enableFlicker")
    then push layers (flickerLayer style position)
    else layers in
  layers.

Definition _buildHolographicFilter (style : obj) : string :=
  Str.join "," (layersOf style).

Definition positionOf (style : obj) : slot point :=
  _calculatePosition (style!."position") (style!."offsetX") (style!."offsetY").

(** How many layers an effect contributes. *)
Definition layersIf (enabled : bool) (n : nat) : nat := if enabled then n else 0%nat.

(** The overrides that switch every optional effect off. *)
Definition allEffectsOff : obj :=
  list_to_map
    [ ("enableRainbow", VBool false); ("chromaticAberration", int 0);
      ("interferencePattern", VBool false); ("enableGlitch", VBool false);
      ("prismEffect", VBool false); ("enableFlicker", VBool false) ].


(** The callbacks of the two [forEach] loops of the image filter. *)
Definition staticRainbowLayer (style : obj) (position : slot point)
    (index : nat) (color : string) : string :=
  let index := int (Z.of_nat index) in
  render (layer style color $(mul (style!."opacity") (dec 4 1))
            ($(pos_x position) +:+ "+" +:+ $index)
            ($(pos_y position) +:+ "+" +:+ $index)).

Definition staticPrismLayer (style : obj) (position : slot point)
    (index : nat) (color : value) : string :=
  let index := int (Z.of_nat index) in
  render (layer style $color $(mul (style!."opacity") (dec 7 1))
            ($(pos_x position) +:+ "+" +:+ $(mul index (int 2)))
            ($(pos_y position) +:+ "+" +:+ $(mul index (int 2)))).

Definition staticChromaticLayers (style : obj) (position : slot point) : list string :=
  let offset := style!."chromaticAberration" in
  let alpha := $(mul (style!."opacity") (dec 6 1)) in
  [ render (layer style "#ff0000" alpha ($(pos_x position) +:+ "-" +:+ $offset)
              $(pos_y position));
    render (layer style "#00ff00" alpha $(pos_x position) $(pos_y position));
    render (layer style "#0000ff" alpha ($(pos_x position) +:+ "+" +:+ $offset)
              $(pos_y position)) ].

(** The [filters] array of [_buildStaticHolographicFilter] when it is
    joined. *)
Definition staticLayersOf (style : obj) : list string :=
  let position :=
    _calculatePosition (style!."position") (style!."offsetX") (style!."offsetY") in
  let filters := [] in
  let filters :=
    if truthy (style!."enableRainbow")
    then pushAll filters (imap (staticRainbowLayer style position) rainbowColors)
    else filters in
  let filters :=
    if gt_num (style!."chromaticAberration") (Num.ofZ 0)
    then pushAll filters (staticChromaticLayers style position)
    else filters in
  let filters :=
    if truthy (style!."prismEffect")
    then pushAll filters
           (imap (staticPrismLayer style position)
              [ style!."primaryColor"; style!."secondaryColor"; style!."tertiaryColor" ])
    else filters in
  filters.

Definition _buildStaticHolographicFilter (style : obj) : string :=
  Str.join "," (staticLayersOf style).

End Holo.

(** ** The vintage styler (styles/vintage.js) *)

Module Vintage.

Definition defaultStyle : obj :=
  list_to_map
    [ ("text", VStr "VINTAGE"); ("font", VStr "Times New Roman Bold");
      ("fontSize", int 48); ("primaryColor", VStr "#d4af37");
      ("shadowColor", VStr "#8b4513"); ("patina", VStr "#2f4f2f");
      ("opacity", dec 75 2); ("rotation", int 0);
      ("position", VStr "bottom-center"); ("offsetX", int 0); ("offsetY", int 50);
      ("shadowOffset", int 3); ("enablePatina", VBool true);
      ("enableEmboss", VBool true); ("borderStyle", VStr "ornate");
      ("borderWidth", int 4); ("ageEffect", dec 3 1); ("sepia", VBool true);
      ("noise", dec 15 2); ("vignette", VBool false) ].

Definition _calculatePosition : value → value → value → slot point :=
  calculatePosition "bottom-center".

Definition positionOf (style : obj) : slot point :=
  _calculatePosition (style!."position") (style!."offsetX") (style!."offsetY").

Definition sepiaFilter : string :=
  "colorchannelmixer=.393:.769:.189:0:.349:.686:.168:0:.272:.534:.131".

(** [Math.floor(v)]. *)
Definition mathFloor (v : value) : value := VNum (Num.floor (toNumber v)).

Definition _createOrnateBorder (style : obj) (position : slot point) : string :=
  let boxWidth := "tw+" +:+ $(mul (style!."borderWidth") (int 8)) in
  let boxHeight := "th+" +:+ $(mul (style!."borderWidth") (int 4)) in
  let boxX := $(pos_x position) +:+ "-" +:+ $(mul (style!."borderWidth") (int 4)) in
  let boxY := $(pos_y position) +:+ "-" +:+ $(mul (style!."borderWidth") (int 2)) in
  "drawbox=x=" +:+ boxX +:+ ":y=" +:+ boxY +:+ ":w=" +:+ boxWidth +:+ ":h=" +:+ boxHeight
  +:+ ":color=" +:+ $(style!."patina") +:+ "@" +:+ $(style!."ageEffect")
  +:+ ":t=" +:+ $(style!."borderWidth").

(** The record behind [_buildMainVintageText]. *)
Definition mainLayer (style : obj) (position : slot point) : drawtext :=
  {| dt_text := style!."text"; dt_fontsize := style!."fontSize";
     dt_fontcolor := $(style!."primaryColor"); dt_alpha := $(style!."opacity");
     dt_x := $(pos_x position); dt_y := $(pos_y position);
     dt_font := style!."font";
     dt_opts := if gt_num (style!."borderWidth") (Num.ofZ 0)
                then ":borderw=" +:+ $(style!."borderWidth") +:+ ":bordercolor="
                     +:+ $(style!."shadowColor") +:+ "@"
                     +:+ $(mul (style!."opacity") (dec 8 1))
                else "" |}.

Definition _buildMainVintageText (style : obj) (position : slot point) : string :=
  render (mainLayer style position).

(** The embossed shadow: the style's text in the shadow colour at 0.6 of the
    opacity, drawn at [(x, y)]. *)
Definition embossLayer (style : obj) (x y : string) : drawtext :=
  {| dt_text := style!."text"; dt_fontsize := style!."fontSize";
     dt_fontcolor := $(style!."shadowColor");
     dt_alpha := $(mul (style!."opacity") (dec 6 1));
     dt_x := x; dt_y := y; dt_font := style!."font"; dt_opts := "" |}.

Definition patinaLayer (style : obj) (position : slot point) : drawtext :=
  {| dt_text := style!."text"; dt_fontsize := add (style!."fontSize") (int 1);
     dt_fontcolor := $(style!."patina"); dt_alpha := $(style!."ageEffect");
     dt_x := $(pos_x position); dt_y := $(pos_y position);
     dt_font := style!."font"; dt_opts := "" |}.

(** [parseInt(c.toString()) + style.shadowOffset]. *)
Definition embossCoordinate (style : obj) (c : value) : completion value :=
  s ← callToString c;
  mret (add (VNum (parseInt s)) (style!."shadowOffset")).

(** The embossed shadow of the video filter. *)
Definition videoEmboss (style : obj) (position : slot point) : completion drawtext :=
  embossX ← embossCoordinate style (pos_x position);
  embossY ← embossCoordinate style (pos_y position);
  mret (embossLayer style $embossX $embossY).

(** The embossed shadow of the image filter. *)
Definition staticEmboss (style : obj) (position : slot point) : drawtext :=
  embossLayer style
    ($(pos_x position) +:+ "+" +:+ $(style!."shadowOffset"))
    ($(pos_y position) +:+ "+" +:+ $(style!."shadowOffset")).

(** The [filters] array of [_buildVintageFilter] when it is joined. *)
Definition filtersOf (style : obj) : completion (list string) :=
  let position :=
    _calculatePosition (style!."position") (style!."offsetX") (style!."offsetY") in
  let filters := [] in
  let filters := if truthy (style!."sepia") then push filters sepiaFilter else filters in
  let filters :=
    if gt_num (style!."noise") (Num.ofZ 0)
    then push filters ("noise=alls=" +:+ $(mathFloor (mul (style!."noise") (int 100)))
                       +:+ ":allf=t+u")
    else filters in
  let filters :=
    if truthy (style!."vignette") then push filters "vignette=PI/4" else filters in
  let filters :=
    if strict_eq_str (style!."borderStyle") "ornate"
    then push filters (_createOrnateBorder style position)
    else filters in
  filters ←
    (if truthy (style!."enableEmboss")
     then emboss ← videoEmboss style position; mret (push filters (render emboss))
     else mret filters);
  let filters :=
    if truthy (style!."enablePatina")
    then push filters (render (patinaLayer style position))
    else filters in
  let filters := push filters (_buildMainVintageText style position) in
  mret filters.

Definition _buildVintageFilter (style : obj) : completion string :=
  filters ← filtersOf style; mret (Str.join "," filters).

(** [applyToVideo]: the style is resolved and the filter built before the
    promise is created; an exception of the filter builder leaves the
    function before any ffmpeg command exists. *)
Definition applyToVideo (inputPath outputPath : string) (customStyle : option obj)
    : completion command :=
  let style := spread2 defaultStyle (orEmpty customStyle) in
  complexFilter ← _buildVintageFilter style;
  mret {| cmd_input := inputPath; cmd_kind := ComplexFilter;
          cmd_filter := complexFilter;
          cmd_outputOptions := [ "-c:v libx264"; "-c:a copy"; "-preset slow";
                                 "-crf 18"; "-pix_fmt yuv420p" ];
          cmd_output := outputPath |}.

(** The [filters] array of [_buildStaticVintageFilter] when it is joined. *)
Definition staticFiltersOf (style : obj) : list string :=
  let position :=
    _calculatePosition (style!."position") (style!."offsetX") (style!."offsetY") in
  let filters := [] in
  let filters := if truthy (style!."sepia") then push filters sepiaFilter else filters in
  let filters :=
    if strict_eq_str (style!."borderStyle") "ornate"
    then push filters (_createOrnateBorder style position)
    else filters in
  let filters :=
    if truthy (style!."enableEmboss")
    then push filters (render (staticEmboss style position))
    else filters in
  let filters :=
    if truthy (style!."enablePatina")
    then push filters (render (patinaLayer style position))
    else filters in
  let filters := push filters (_buildMainVintageText style position) in
  filters.

Definition _buildStaticVintageFilter (style : obj) : string :=
  Str.join "," (staticFiltersOf style).


(** The style object of [applyAgedFilm]: four properties are written after
    both spreads. *)
Definition agedFilmStyle (customStyle : option obj) : obj :=
  <["ageEffect" := dec 4 1]>
    (<["vignette" := VBool true]>
       (<["noise" := dec 25 2]>
          (<["sepia" := VBool true]>
             (spread2 defaultStyle (orEmpty customStyle))))).

(** The entries of the [filmFilter] array of [applyAgedFilm]. *)
Definition agedFilmEntries (style : obj) : list string :=
  let position :=
    _calculatePosition (style!."position") (style!."offsetX") (style!."offsetY") in
  [ sepiaFilter;
    "curves=all=0/0.1 0.5/0.4 1/0.9";
    "noise=alls=" +:+ $(mathFloor (mul (style!."noise") (int 100))) +:+ ":allf=t+u";
    "vignette=PI/3";
    render (embossLayer style
              ($(pos_x position) +:+ "+" +:+ $(style!."shadowOffset"))
              ($(pos_y position) +:+ "+" +:+ $(style!."shadowOffset")));
    render {| dt_text := style!."text"; dt_fontsize := style!."fontSize";
              dt_fontcolor := $(style!."primaryColor"); dt_alpha := $(style!."opacity");
              dt_x := $(pos_x position); dt_y := $(pos_y position);
              dt_font := style!."font";
              dt_opts := ":borderw=" +:+ $(style!."borderWidth")
                         +:+ ":bordercolor=" +:+ $(style!."patina") |} ].

Definition applyAgedFilm (inputPath outputPath : string) (customStyle : option obj)
    : completion command :=
  let style := agedFilmStyle customStyle in
  let filmFilter := Str.join "," (agedFilmEntries style) in
  mret {| cmd_input := inputPath; cmd_kind := ComplexFilter; cmd_filter := filmFilter;
          cmd_outputOptions := [ "-c:v libx264"; "-c:a copy"; "-preset slow";
                                 "-crf 16" ];
          cmd_output := outputPath |}.

End Vintage.

(** ** The basic styler (WatermarkStyler) *)

Module Basic.

Definition defaultStyle : obj :=
  list_to_map
    [ ("text", VStr "Samuel"); ("font", VStr "Arial"); ("fontSize", int 48);
      ("fontColor", VStr "white"); ("opacity", dec 48 2); ("rotation", int (-6));
      ("position", VStr "bottom-right"); ("offsetX", int 30); ("offsetY", int 30);
      ("shadowColor", VStr "black"); ("shadowOffset", int 2);
      ("enableShadow", VBool true); ("backgroundColor", VNull);
      ("borderWidth", int 0); ("borderColor", VStr "black") ].

Definition _calculatePosition : value → value → value → slot point :=
  calculatePosition "bottom-right".

(** The first statement of [applyToVideo] and [applyToImage]:
    [{ ...this.defaultStyle, ...customStyle }]. *)
Definition resolveStyle (customStyle : option obj) : obj :=
  spread2 defaultStyle (orEmpty customStyle).

(** How the promise of an [applyTo...] call settles: resolved with the
    output path, or rejected with an [Error] carrying a message. *)
Inductive outcome :=
| Resolved (path : string)
| Rejected (message : string).

(** One entry of the array [createVariations] returns:
    [{ success: true, path, variation }] or
    [{ success: false, error, variation }]. *)
Inductive variationResult :=
| Succeeded (path : string) (variation : obj)
| Failed (error : string) (variation : obj).

Definition success (r : variationResult) : bool :=
  match r with Succeeded _ _ => true | Failed _ _ => false end.

Definition variationOf (r : variationResult) : obj :=
  match r with Succeeded _ v | Failed _ v => v end.

Section CreateVariations.

(** Node's [path.join] and [path.extname], and [String.prototype.toLowerCase]. *)
Variable pathJoin : string → string → string.
Variable extname : string → string.
Variable toLowerCase : string → string.

(** The state of everything outside the styler (files, the ffmpeg
    processes), and the two render entry points, whose promises settle one
    way or the other and change that state. *)
Variable World : Type.
Variable applyToVideo applyToImage : string → string → option obj → World → outcome * World.

Definition videoExtensions : list string :=
  [ ".mp4"; ".avi"; ".mov"; ".mkv"; ".webm"; ".flv" ].

Definition _isVideoFile (filePath : string) : bool :=
  let ext := toLowerCase (extname filePath) in
  bool_decide (ext ∈ videoExtensions).

(** [path.extname(filePath).substring(1)]. *)
Definition _getFileExtension (filePath : string) : string :=
  let ext := extname filePath in
  String.substring 1 (String.length ext - 1) ext.

(** The file name of the variation at (zero-based) index [i]:
    [`watermarked_${i + 1}.${this._getFileExtension(inputPath)}`]. *)
Definition fileNameOf (inputPath : string) (i : nat) : string :=
  "watermarked_" +:+ $(add (int (Z.of_nat i)) (int 1)) +:+ "."
  +:+ _getFileExtension inputPath.

(** The output path of the variation at (zero-based) index [i]. *)
Definition outputPathOf (inputPath outputDir : string) (i : nat) : string :=
  pathJoin outputDir
    ("watermarked_" +:+ $(add (int (Z.of_nat i)) (int 1)) +:+ "."
     +:+ _getFileExtension inputPath).

(** The body of the loop for index [i]: the [try] block awaits the render
    and pushes a success entry; the [catch] block pushes a failure entry. *)
Definition attempt (inputPath outputDir : string) (i : nat) (variation : obj)
    (w : World) : variationResult * World :=
  let outputPath := outputPathOf inputPath outputDir i in
  let isVideo := _isVideoFile inputPath in
  let '(settled, w) :=
    if isVideo
    then applyToVideo inputPath outputPath (Some variation) w
    else applyToImage inputPath outputPath (Some variation) w in
  match settled with
  | Resolved _ => (Succeeded outputPath variation, w)
  | Rejected message => (Failed message variation, w)
  end.

(** The [for] loop from index [i] on, over the variations still to do. *)
Fixpoint loop (inputPath outputDir : string) (i : nat) (todo : list obj)
    (results : list variationResult) (w : World) : list variationResult * World :=
  match todo with
  | [] => (results, w)
  | variation :: todo =>
      let '(r, w) := attempt inputPath outputDir i variation w in
      loop inputPath outputDir (S i) todo (results ++ [r]) w
  end.

Definition createVariations (inputPath outputDir : string) (variations : list obj)
    (w : World) : list variationResult * World :=
  loop inputPath outputDir 0 variations [] w.

End CreateVariations.

End Basic.

(** A concrete renderer to run a batch with.  [pathJoin] and [extname] stand
    in for Node's [path.join] and [path.extname] on plain names such as
    [out] and [clip.mp4] only: paths are joined with [/] without any
    normalisation and the extension starts at the last dot.  The world
    counts the renders started, and a render fails exactly when the
    variation's text is ["bad"]. *)
Module Demo.

Definition pathJoin (a b : string) : string := a +:+ "/" +:+ b.

Fixpoint extname (s : string) : string :=
  match s with
  | EmptyString => ""
  | String c s' =>
      match extname s' with
      | EmptyString => if Ascii.eqb c "." then s else ""
      | e => e
      end
  end.

Definition toLowerCase (s : string) : string := s.

Definition apply (inputPath outputPath : string) (customStyle : option obj) (started : nat)
    : Basic.outcome * nat :=
  (if bool_decide ((orEmpty customStyle)!."text" = VStr "bad")
   then Basic.Rejected "ffmpeg exited with code 1"
   else Basic.Resolved outputPath,
   S started).

Definition createVariations :=
  Basic.createVariations pathJoin extname toLowerCase nat apply apply.

Definition good (text : string) : obj := {[ "text" := VStr text ]}.
Definition bad : obj := {[ "text" := VStr "bad" ]}.

End Demo.

(** ** The style registry (TikTokDownloader) *)

Module Downloader.

(** What [getStyler] returns: a registered styler, a member of
    [Object.prototype] reached through the prototype chain, or [null]. *)
Inductive found (A : Type) :=
| Styler (a : A)
| PrototypeMember (name : string)
| Null.
Arguments Styler {A} a.
Arguments PrototypeMember {A} name.
Arguments Null {A}.

(** [this.watermarkStyles[styleType] || this.watermarkStyles['glitch'] || null];
    a styler is an object, hence truthy. *)
Definition getStyler {A} (watermarkStyles : gmap string A) (styleType : value) : found A :=
  match getComputed watermarkStyles styleType with
  | Own a => Styler a
  | Inherited name => PrototypeMember name
  | Missing =>
      match getComputed watermarkStyles (VStr "glitch") with
      | Own a => Styler a
      | Inherited name => PrototypeMember name
      | Missing => Null
      end
  end.

(** Style families, to name the stylers of a registry. *)
Inductive family := Glitch | NeonStyle | HoloStyle | VintageStyle | GlassStyle.


Section Presets.

(** The stylers of a registry, and the table each one's [getPresetStyles]
    returns, as its properties in [Object.keys] order; [None] for a styler
    that has no such property (a styler either has the function or lacks
    the property altogether). *)
Context {A : Type} (presetsOf : A → option (list (string * obj))).

(** [allPresets[key] = entry]: an assignment to [__proto__] goes to the
    prototype setter and creates no own property. *)
Definition assign (allPresets : gmap string obj) (key : string) (entry : obj)
    : gmap string obj :=
  if String.eqb key "__proto__" then allPresets else <[key := entry]> allPresets.

(** The entry stored for a preset: [{ ...preset, styleType: styleType }]. *)
Definition presetEntry (styleType : string) (preset : obj) : obj :=
  <["styleType" := VStr styleType]> (copyDataProperties ∅ preset).

(** The inner [forEach], over the presets of one styler. *)
Definition addPresets (styleType : string) (presets : list (string * obj))
    (allPresets : gmap string obj) : gmap string obj :=
  foldl (λ allPresets '(presetName, preset),
           assign allPresets (styleType +:+ "_" +:+ presetName)
             (presetEntry styleType preset))
        allPresets presets.

(** [getPresetStyles] over the registry's properties in [Object.keys]
    order. *)
Definition getPresetStyles (watermarkStyles : list (string * A)) : gmap string obj :=
  foldl (λ allPresets '(styleType, styler),
           match presetsOf styler with
           | Some presets => addPresets styleType presets allPresets
           | None => allPresets
           end)
        ∅ watermarkStyles.

(** [getAvailableStyles]: one [{ name, presets }] per registered styler,
    with the names of its presets, or none when it offers no table. *)
Definition getAvailableStyles (watermarkStyles : list (string * A))
    : list (string * list string) :=
  (λ '(styleType, styler),
     (styleType,
      match presetsOf styler with
      | Some presets => presets.*1
      | None => []
      end)) <$> watermarkStyles.

End Presets.

End Downloader.

(** A registry to look presets up in: the neon styler with its presets, and
    a glitch styler that offers none. *)
Module DemoRegistry.

Definition presetsOf (styler : Downloader.family) : option (list (string * obj)) :=
  match styler with
  | Downloader.NeonStyle => Some Neon.getPresetStyles
  | _ => None
  end.

Definition watermarkStyles : list (string * Downloader.family) :=
  [ ("glitch", Downloader.Glitch); ("neon", Downloader.NeonStyle) ].

End DemoRegistry.

(** ** Expressions of the filter language *)

Module Expr.

(** The fragment of ffmpeg's expression language the reveal effect uses:
    the time variable [t], constants, products and [min].  The stylers only
    write such expressions into the filter string; ffmpeg reads and
    evaluates them. *)
Inductive expr :=
| Time
| Const (n : num)
| Mul (a b : expr)
| Min (a b : expr).

(** The expression as the templates spell it. *)
Fixpoint show (e : expr) : string :=
  match e with
  | Time => "t"
  | Const n => Num.show n
  | Mul a b => show a +:+ "*" +:+ show b
  | Min a b => "min(" +:+ show a +:+ "," +:+ show b +:+ ")"
  end.


(** Modelled from the spec: the closed form [min(t*rate, target)] of the
    reveal opacity.  The stylers hold no such function; [createLogoReveal]
    writes the expression into its filter, with rate 0.5 and the style's
    opacity for the text and rate 0.3 and target 0.4 for the glow. *)
Definition reveal (rate target : num) : expr :=
  Min (Mul Time (Const rate)) (Const target).

End Expr.

(** * Properties *)

(** Closed decidable goals, by evaluation. *)
Ltac by_decide :=
  lazymatch goal with
  | |- ¬ ?P => apply (bool_decide_eq_false_1 P); vm_compute; reflexivity
  | |- ?P => apply (bool_decide_unpack P); vm_compute; exact I
  end.

(** ** Object spread *)

Lemma lookup_copyDataProperties (target source : obj) (k : string) :
  copyDataProperties target source !! k =
  match source !! k with Some v => Some v | None => target !! k end.
Proof.
  unfold copyDataProperties.
  apply (map_fold_weak_ind
           (λ r m, r !! k = match m !! k with Some v => Some v | None => target !! k end)).
  - by rewrite lookup_empty.
  - intros i x m r Hfresh IH.
    destruct (decide (i = k)) as [->|Hne].
    + by rewrite !lookup_insert_eq.
    + by rewrite !lookup_insert_ne.
Qed.

Lemma lookup_spread2 (a b : obj) (k : string) :
  spread2 a b !! k = match b !! k with Some v => Some v | None => a !! k end.
Proof.
  unfold spread2. rewrite !lookup_copyDataProperties, lookup_empty.
  destruct (b !! k), (a !! k); reflexivity.
Qed.

Lemma spread2_empty (a : obj) : spread2 a ∅ = a.
Proof.
  apply map_eq. intros k. rewrite lookup_spread2, lookup_empty. reflexivity.
Qed.

(** C4. The style an [applyTo...] call resolves is the shallow merge of the
    family defaults with the overrides: a key the overrides hold reads as in
    the overrides, every other key reads as in the defaults, both as own
    property and through a property read. *)
Theorem resolve_overrides_win (defaults overrides : obj) (K : string) :
  (K ∈ dom overrides →
     spread2 defaults overrides !! K = overrides !! K
     ∧ (spread2 defaults overrides)!.K = overrides!.K)
  ∧ (K ∉ dom overrides →
     spread2 defaults overrides !! K = defaults !! K
     ∧ (spread2 defaults overrides)!.K = defaults!.K).
Proof.
  unfold getp. rewrite lookup_spread2. split.
  - intros [v Hv]%elem_of_dom. by rewrite Hv.
  - intros Hout%not_elem_of_dom. by rewrite Hout.
Qed.

Lemma resolve_overrides_win_witness :
  Basic.resolveStyle (Some {[ "opacity" := dec 9 1 ]}) !! "opacity" = Some (dec 9 1)
  ∧ Basic.resolveStyle (Some {[ "opacity" := dec 9 1 ]}) !! "fontSize" = Some (int 48).
Proof.
  unfold Basic.resolveStyle, orEmpty; simpl. split.
  - destruct (resolve_overrides_win Basic.defaultStyle {[ "opacity" := dec 9 1 ]} "opacity")
      as [Hin _].
    destruct Hin as [Hown _].
    + rewrite dom_singleton_L; set_solver.
    + rewrite Hown. reflexivity.
  - destruct (resolve_overrides_win Basic.defaultStyle {[ "opacity" := dec 9 1 ]} "fontSize")
      as [_ Hout].
    destruct Hout as [Hown _].
    + rewrite dom_singleton_L; set_solver.
    + rewrite Hown. reflexivity.
Defined.

(** An omitted [customStyle] leaves the defaults as they are. *)
Lemma resolveStyle_omitted : Basic.resolveStyle None = Basic.defaultStyle.
Proof. unfold Basic.resolveStyle, orEmpty; simpl. apply spread2_empty. Qed.

(** ** The pulsing neon entry point *)

(** C10. Whatever the caller's overrides say, the style [applyPulsingNeon]
    builds its filter from has [animationSpeed] 1.5 and [blinkEffect]
    false; every other key follows the merge of defaults and overrides. *)
Theorem pulsing_forces_speed_and_blink (inputPath outputPath : string)
    (customStyle : option obj) :
  let style := Neon.pulsingStyle customStyle in
  style!."animationSpeed" = dec 15 1
  ∧ style!."blinkEffect" = VBool false
  ∧ (∀ K, K ≠ "animationSpeed" → K ≠ "blinkEffect" →
       style !! K = spread2 Neon.defaultStyle (orEmpty customStyle) !! K)
  ∧ Neon.applyPulsingNeon inputPath outputPath customStyle =
      Normal {| cmd_input := inputPath; cmd_kind := ComplexFilter;
                cmd_filter := Neon.pulsingFilter style;
                cmd_outputOptions := [ "-c:v libx264"; "-c:a copy"; "-preset medium";
                                       "-crf 18" ];
                cmd_output := outputPath |}.
Proof.
  cbv zeta. unfold Neon.pulsingStyle, getp. repeat split.
  - rewrite lookup_insert_ne by discriminate. by rewrite lookup_insert_eq.
  - by rewrite lookup_insert_eq.
  - intros K Hspeed Hblink. by rewrite !lookup_insert_ne.
Qed.

Lemma pulsing_forces_speed_and_blink_witness :
  let custom := Some (<["animationSpeed" := int 9]> (<["blinkEffect" := VBool true]>
                        {[ "text" := VStr "PULSE" ]})) in
  (Neon.pulsingStyle custom)!."animationSpeed" = dec 15 1
  ∧ (Neon.pulsingStyle custom)!."blinkEffect" = VBool false
  ∧ (Neon.pulsingStyle custom)!."text" = VStr "PULSE".
Proof.
  cbv zeta.
  pose proof (pulsing_forces_speed_and_blink "in.mp4" "out.mp4"
    (Some (<["animationSpeed" := int 9]> (<["blinkEffect" := VBool true]>
             {[ "text" := VStr "PULSE" ]})))) as (Hspeed & Hblink & Hother & _).
  cbv zeta in *. split; [exact Hspeed | split; [exact Hblink |]].
  unfold getp. rewrite Hother by discriminate. vm_compute. reflexivity.
Defined.

(** The filter built from overrides that ask for another speed and for
    blinking still pulses at 1.5 * 3 and 1.5 * 2. *)
Example pulsing_filter_ignores_speed_override :
  Neon.pulsingFilter
    (Neon.pulsingStyle (Some (<["animationSpeed" := int 9]> {[ "opacity" := int 1 ]}))) =
  "drawtext=text='NEON':fontsize=76:fontcolor=#00ffff@0.4*(0.5+0.5*sin(t*3)):x=w-tw-40:y=40:font='Arial Bold',drawtext=text='NEON':fontsize=60:fontcolor=#00ffff@0.4*(0.5+0.5*sin(t*3)):x=w-tw-40:y=40:font='Arial Bold',drawtext=text='NEON':fontsize=52:fontcolor=#00ffff@1*(0.7+0.3*sin(t*4.5)):x=w-tw-40:y=40:font='Arial Bold':borderw=3:bordercolor=#ff00ff".
Proof. vm_compute. reflexivity. Qed.

(** ** Anchors *)

Lemma positions_unknown (offsetX offsetY : value) (k : string) :
  k ∉ anchors → positions offsetX offsetY !! k = None.
Proof. intros Hk. unfold positions. by apply not_elem_of_list_to_map_1. Qed.

(** Each of the seven named anchors resolves to its own formula, whatever
    the family's fallback is. *)
Lemma calculatePosition_named (fallback : string) (offsetX offsetY : value) :
  let at_ anchor := calculatePosition fallback (VStr anchor) offsetX offsetY in
  at_ "top-left" = Own {| px := offsetX; py := offsetY |}
  ∧ at_ "top-right" = Own {| px := VStr ("w-tw-" +:+ $offsetX); py := offsetY |}
  ∧ at_ "bottom-left" = Own {| px := offsetX; py := VStr ("h-th-" +:+ $offsetY) |}
  ∧ at_ "bottom-right" = Own {| px := VStr ("w-tw-" +:+ $offsetX);
                                py := VStr ("h-th-" +:+ $offsetY) |}
  ∧ at_ "center" = Own {| px := VStr "(w-tw)/2"; py := VStr "(h-th)/2" |}
  ∧ at_ "top-center" = Own {| px := VStr "(w-tw)/2"; py := offsetY |}
  ∧ at_ "bottom-center" = Own {| px := VStr "(w-tw)/2";
                                 py := VStr ("h-th-" +:+ $offsetY) |}.
Proof. cbv zeta. repeat split; reflexivity. Qed.

(** An anchor that is neither one of the seven names nor the name of a
    member of [Object.prototype] resolves as the family's fallback does. *)
Lemma calculatePosition_fallback (fallback : string) (position offsetX offsetY : value) :
  $position ∉ anchors → $position ∉ objectPrototype →
  calculatePosition fallback position offsetX offsetY =
  calculatePosition fallback (VStr fallback) offsetX offsetY.
Proof.
  intros Hanchor Hproto. unfold calculatePosition.
  assert (getComputed (positions offsetX offsetY) position = Missing) as ->.
  { unfold getComputed. rewrite positions_unknown by done.
    by rewrite bool_decide_false. }
  by destruct (getComputed (positions offsetX offsetY) (VStr fallback)).
Qed.

(** The fallbacks of the four stylers. *)
Lemma calculatePosition_defaults (position offsetX offsetY : value) :
  $position ∉ anchors → $position ∉ objectPrototype →
  Neon._calculatePosition position offsetX offsetY =
    Own {| px := VStr ("w-tw-" +:+ $offsetX); py := offsetY |}
  ∧ Basic._calculatePosition position offsetX offsetY =
    Own {| px := VStr ("w-tw-" +:+ $offsetX); py := VStr ("h-th-" +:+ $offsetY) |}
  ∧ Holo._calculatePosition position offsetX offsetY =
    Own {| px := VStr "(w-tw)/2"; py := VStr "(h-th)/2" |}
  ∧ Vintage._calculatePosition position offsetX offsetY =
    Own {| px := VStr "(w-tw)/2"; py := VStr ("h-th-" +:+ $offsetY) |}.
Proof.
  intros Hanchor Hproto.
  unfold Neon._calculatePosition, Basic._calculatePosition,
    Holo._calculatePosition, Vintage._calculatePosition.
  rewrite (calculatePosition_fallback "top-right"),
    (calculatePosition_fallback "bottom-right"),
    (calculatePosition_fallback "center"),
    (calculatePosition_fallback "bottom-center") by done.
  repeat split; reflexivity.
Qed.

(** With one of the seven names as fallback, something is always found. *)
Lemma calculatePosition_found (fallback : string) (position offsetX offsetY : value) :
  fallback ∈ anchors →
  calculatePosition fallback position offsetX offsetY ≠ Missing.
Proof.
  intros Hfb. unfold calculatePosition.
  destruct (getComputed (positions offsetX offsetY) position) eqn:Hp; try done.
  unfold anchors in Hfb.
  repeat (apply elem_of_cons in Hfb as [->|Hfb]; [ done |]).
  by apply elem_of_nil in Hfb.
Qed.

(** The end-to-end scenario of the basic styler: [bottom-right] with
    offsets (30, 30). *)
Example bottom_right_30_30 :
  Basic._calculatePosition (VStr "bottom-right") (int 30) (int 30) =
  Own {| px := VStr "w-tw-30"; py := VStr "h-th-30" |}.
Proof. reflexivity. Qed.

(** C3. The anchor ["constructor"] is none of the seven names, yet the neon
    styler does not resolve it to its default [top-right]: the lookup in
    the anchor table finds [Object.prototype.constructor] through the
    prototype chain, a truthy value, and returns it, so that the layers read
    [x=undefined:y=undefined]. *)
Theorem calculatePosition_inherited_name :
  Neon._calculatePosition (VStr "constructor") (int 40) (int 40) = Inherited "constructor"
  ∧ Neon._calculatePosition (VStr "top-right") (int 40) (int 40) =
      Own {| px := VStr "w-tw-40"; py := int 40 |}
  ∧ Neon.layersOf (<["position" := VStr "constructor"]> Neon.defaultStyle) !! 0%nat =
      Some "drawtext=text='NEON':fontsize=68:fontcolor=#00ffff@0.2:x=undefined:y=undefined:font='Arial Bold'".
Proof. repeat split; vm_compute; reflexivity. Qed.

(** The same happens for every inherited name, in every family. *)
Lemma calculatePosition_inherited (fallback name : string) (offsetX offsetY : value) :
  name ∈ objectPrototype →
  calculatePosition fallback (VStr name) offsetX offsetY = Inherited name.
Proof.
  intros Hname. unfold objectPrototype in Hname.
  repeat (apply elem_of_cons in Hname as [->|Hname]; [ reflexivity |]).
  by apply elem_of_nil in Hname.
Qed.

(** ** The style registry *)

(** C5 (as stated, refuted). A family name that is not registered is not
    reported: the caller silently gets the glitch styler, or [null] when
    there is none. *)
Lemma getStyler_substitutes_glitch :
  Downloader.getStyler
    (<["glitch" := Downloader.Glitch]> {[ "neon" := Downloader.NeonStyle ]})
    (VStr "sparkle") = Downloader.Styler Downloader.Glitch
  ∧ Downloader.getStyler ({[ "neon" := Downloader.NeonStyle ]} : gmap string _)
      (VStr "sparkle") = Downloader.Null.
Proof. split; vm_compute; reflexivity. Qed.

(** C5 (amended). A registered family name yields its own styler.  A name
    that is neither registered nor inherited from [Object.prototype] yields
    the registered glitch styler when there is one and [null] otherwise; no
    error is raised in either case. *)
Theorem getStyler_fallback {A} (watermarkStyles : gmap string A) (styleType : value) :
  (∀ a, watermarkStyles !! $styleType = Some a →
     Downloader.getStyler watermarkStyles styleType = Downloader.Styler a)
  ∧ (watermarkStyles !! $styleType = None → $styleType ∉ objectPrototype →
     Downloader.getStyler watermarkStyles styleType =
     match watermarkStyles !! "glitch" with
     | Some glitch => Downloader.Styler glitch
     | None => Downloader.Null
     end).
Proof.
  unfold Downloader.getStyler, getComputed. split.
  - intros a Ha. by rewrite Ha.
  - intros Hnone Hproto. rewrite Hnone, bool_decide_false by done.
    simpl. by destruct (watermarkStyles !! "glitch").
Qed.

Lemma getStyler_fallback_witness :
  let registry : gmap string Downloader.family :=
    <["glitch" := Downloader.Glitch]> {[ "holo" := Downloader.HoloStyle ]} in
  Downloader.getStyler registry (VStr "holo") = Downloader.Styler Downloader.HoloStyle
  ∧ Downloader.getStyler registry (VStr "retro") = Downloader.Styler Downloader.Glitch.
Proof.
  cbv zeta. split.
  - apply getStyler_fallback. reflexivity.
  - pose proof (getStyler_fallback
      (<["glitch" := Downloader.Glitch]> {[ "holo" := Downloader.HoloStyle ]})
      (VStr "retro")) as [_ Hmiss].
    rewrite Hmiss; [ reflexivity | reflexivity |].
    by_decide.
Defined.

(** ** The neon pipeline *)

Lemma split_first_skip (c0 c : ascii) (pattern rest : string) :
  c0 ≠ c →
  Str.split_first (String c0 pattern) (String c rest) =
  match Str.split_first (String c0 pattern) rest with
  | Some (before, after) => Some (String c before, after)
  | None => None
  end.
Proof.
  intros Hne. cbn [Str.split_first String.prefix].
  destruct (ascii_dec c0 c) as [Heq|_]; [ by destruct Hne | reflexivity ].
Qed.

Lemma prefix_append (p s : string) : String.prefix p (p +:+ s) = true.
Proof.
  induction p as [|c p IH]; [ by destruct s |].
  change (String.prefix (String c p) (String c p +:+ s))
    with (if ascii_dec c c then String.prefix p (p +:+ s) else false).
  destruct (ascii_dec c c) as [_|Hne]; [ exact IH | by destruct Hne ].
Qed.

Lemma isTextOp_drawtext (rest : string) : isTextOp ("drawtext=" +:+ rest) = true.
Proof. apply prefix_append. Qed.

(** A replacement whose pattern starts with [@] leaves the head of a
    [drawtext] entry alone. *)
Lemma replace_keeps_drawtext (rest pattern repl : string) :
  isTextOp (replace ("drawtext=" +:+ rest) (String "@" pattern) repl) = true.
Proof.
  change ("drawtext=" +:+ rest) with
    (String "d" (String "r" (String "a" (String "w" (String "t" (String "e"
      (String "x" (String "t" (String "=" rest))))))))).
  unfold replace. rewrite !split_first_skip by discriminate.
  destruct (Str.split_first (String "@" pattern) rest) as [[before after]|].
  - apply (isTextOp_drawtext
             (before +:+ getSubstitution (String "@" pattern)
                ("drawtext=" +:+ before) after repl +:+ after)).
  - apply (isTextOp_drawtext rest).
Qed.

Lemma render_isTextOp (l : drawtext) : isTextOp (render l) = true.
Proof. apply (isTextOp_drawtext (String.append "text='" _)). Qed.

Lemma neon_layers_view (style : obj) :
  Neon.layersOf style =
  ((render <$> Neon.glowLayers style) ++ [Neon.mainText style])%list.
Proof.
  unfold Neon.layersOf, Neon.mainText, Neon.mainLayer, Neon.glowLayers,
    Neon.positionOf, push.
  destruct (truthy (style!."enableDoubleStroke")), (truthy (style!."blinkEffect"));
    reflexivity.
Qed.

Lemma neon_mainText_isTextOp (style : obj) : isTextOp (Neon.mainText style) = true.
Proof.
  unfold Neon.mainText.
  destruct (truthy (style!."blinkEffect")); [| apply render_isTextOp].
  apply (replace_keeps_drawtext _ ($(style!."opacity"))).
Qed.

Lemma last_snoc_list {A} (l : list A) (x : A) : last (l ++ [x])%list = Some x.
Proof. apply last_snoc. Qed.

(** C2 (as stated, refuted). At the neon defaults (font size 52, glow
    intensity 8) the glow opacities are 0.2, 0.4 and 0.6 in pipeline order:
    they grow towards the main layer, they do not decrease. *)
Lemma neon_glow_opacities_not_decreasing :
  alphaOf <$> Neon.glowLayers Neon.defaultStyle = [Num.lit 2 1; Num.lit 4 1; Num.lit 6 1]
  ∧ strictlyDecreasing (alphaOf <$> Neon.glowLayers Neon.defaultStyle) = false
  ∧ Neon.layersOf Neon.defaultStyle =
    [ "drawtext=text='NEON':fontsize=68:fontcolor=#00ffff@0.2:x=w-tw-40:y=40:font='Arial Bold'";
      "drawtext=text='NEON':fontsize=60:fontcolor=#00ffff@0.4:x=w-tw-40:y=40:font='Arial Bold'";
      "drawtext=text='NEON':fontsize=54:fontcolor=#00ffff@0.6:x=w-tw-40:y=40:font='Arial Bold'";
      "drawtext=text='NEON':fontsize=52:fontcolor=#00ffff@0.85:x=w-tw-40:y=40:font='Arial Bold':borderw=3:bordercolor=#ff00ff" ].
Proof. repeat split; vm_compute; reflexivity. Qed.

(** C2 (amended). The neon pipeline of every style is three glow layers
    followed by one main text layer; the glow layers have font sizes
    [fontSize + glowIntensity * 2], [fontSize + glowIntensity] and
    [fontSize + 2] and opacities 0.2, 0.4 and 0.6, strictly increasing towards
    the main layer.  With font size 52 and glow intensity 8 the sizes are 68,
    60 and 54. *)
Theorem neon_glow_layers (style : obj) :
  ∃ g1 g2 g3,
    Neon.layersOf style = [render g1; render g2; render g3; Neon.mainText style]
    ∧ dt_fontsize g1 = add (style!."fontSize") (mul (style!."glowIntensity") (int 2))
    ∧ dt_fontsize g2 = add (style!."fontSize") (style!."glowIntensity")
    ∧ dt_fontsize g3 = add (style!."fontSize") (int 2)
    ∧ alphaOf <$> [g1; g2; g3] = [Num.lit 2 1; Num.lit 4 1; Num.lit 6 1]
    ∧ strictlyIncreasing (alphaOf <$> [g1; g2; g3]) = true
    ∧ (style!."fontSize" = int 52 → style!."glowIntensity" = int 8 →
       dt_fontsize <$> [g1; g2; g3] = [int 68; int 60; int 54]).
Proof.
  pose proof (neon_layers_view style) as Hview.
  unfold Neon.glowLayers in Hview.
  eexists _, _, _. split; [ exact Hview |].
  repeat split.
  intros Hsize Hglow. simpl. rewrite Hsize, Hglow. reflexivity.
Qed.

Lemma neon_glow_layers_witness :
  ∃ g1 g2 g3,
    Neon.layersOf Neon.defaultStyle =
      [render g1; render g2; render g3; Neon.mainText Neon.defaultStyle]
    ∧ dt_fontsize <$> [g1; g2; g3] = [int 68; int 60; int 54]
    ∧ strictlyIncreasing (alphaOf <$> [g1; g2; g3]) = true.
Proof.
  destruct (neon_glow_layers Neon.defaultStyle)
    as (g1 & g2 & g3 & Hlayers & _ & _ & _ & _ & Hinc & Hsizes).
  exists g1, g2, g3. split; [ exact Hlayers |]. split; [| exact Hinc ].
  apply Hsizes; reflexivity.
Defined.

(** ** The holographic pipeline *)

Lemma holo_layers_length (style : obj) :
  length (Holo.layersOf style) =
  (Holo.layersIf (truthy (style!."enableRainbow")) 7
   + Holo.layersIf (gt_num (style!."chromaticAberration") (Num.ofZ 0)) 3
   + Holo.layersIf (truthy (style!."interferencePattern")) 1
   + Holo.layersIf (truthy (style!."enableGlitch")) 1
   + Holo.layersIf (truthy (style!."prismEffect")) 4
   + Holo.layersIf (truthy (style!."enableFlicker")) 1)%nat.
Proof.
  unfold Holo.layersOf, push, pushAll.
  destruct (truthy (style!."enableRainbow")),
    (gt_num (style!."chromaticAberration") (Num.ofZ 0)),
    (truthy (style!."interferencePattern")), (truthy (style!."enableGlitch")),
    (truthy (style!."prismEffect")), (truthy (style!."enableFlicker"));
    reflexivity.
Qed.

Lemma holo_last_flicker (style : obj) :
  truthy (style!."enableFlicker") = true →
  last (Holo.layersOf style) = Some (Holo.flickerLayer style (Holo.positionOf style)).
Proof.
  intros Hflicker. unfold Holo.layersOf, push. rewrite Hflicker.
  apply last_snoc_list.
Qed.

Lemma holo_last_prism (style : obj) :
  truthy (style!."prismEffect") = true →
  truthy (style!."enableFlicker") = false →
  last (Holo.layersOf style) =
  Some (Holo.prismLayer style (Holo.positionOf style) 3 (style!."accentColor")).
Proof.
  intros Hprism Hflicker. unfold Holo.layersOf, pushAll.
  rewrite Hprism, Hflicker. cbv zeta. rewrite last_app. reflexivity.
Qed.

Lemma holo_all_off (style : obj) :
  truthy (style!."enableRainbow") = false →
  gt_num (style!."chromaticAberration") (Num.ofZ 0) = false →
  truthy (style!."interferencePattern") = false →
  truthy (style!."enableGlitch") = false →
  truthy (style!."prismEffect") = false →
  truthy (style!."enableFlicker") = false →
  Holo.layersOf style = [] ∧ Holo._buildHolographicFilter style = "".
Proof.
  intros Hr Hc Hi Hg Hp Hf. unfold Holo._buildHolographicFilter, Holo.layersOf.
  rewrite Hr, Hc, Hi, Hg, Hp, Hf. split; reflexivity.
Qed.

(** C1 (as stated, refuted). With every optional effect of the holographic
    styler switched off the pipeline is empty: no text is drawn at all.
    With the flicker effect on, the last layer is the flicker layer. *)
Lemma holo_without_effects_draws_nothing :
  Holo.layersOf (spread2 Holo.defaultStyle Holo.allEffectsOff) = []
  ∧ Holo._buildHolographicFilter (spread2 Holo.defaultStyle Holo.allEffectsOff) = ""
  ∧ last (Holo.layersOf (<["enableFlicker" := VBool true]> Holo.defaultStyle)) =
    Some "drawtext=text='HOLOGRAM':fontsize=50:fontcolor=#00ffff@0.8*if(mod(floor(t*16),3),1,0.1):x=(w-tw)/2:y=(h-th)/2:font='Arial Bold'".
Proof. repeat split; vm_compute; reflexivity. Qed.

(** C1 (amended). The neon pipeline of every style ends with its main text
    layer, after three glow layers, whatever the blink and stroke flags are.
    The holographic pipeline has no unconditional main text: it is exactly
    the layers of the enabled effects, in this order: the seven rainbow
    layers, the three chromatic layers, the interference layer, the glitch
    layer, the four prism layers, the flicker layer, each drawn as the
    source draws it.  Hence its length is the sum of the enabled groups; its
    last layer is the flicker layer when flicker is on and the last prism
    layer when prism is on and flicker is off; with every effect off it is
    empty. *)
Theorem main_text_last (style : obj) :
  (Neon.layersOf style = ((render <$> Neon.glowLayers style) ++ [Neon.mainText style])%list
   ∧ last (Neon.layersOf style) = Some (Neon.mainText style)
   ∧ isTextOp (Neon.mainText style) = true
   ∧ length (Neon.layersOf style) = 4%nat)
  ∧ (let x := $(pos_x (Holo._calculatePosition (style!."position") (style!."offsetX")
                         (style!."offsetY"))) in
     let y := $(pos_y (Holo._calculatePosition (style!."position") (style!."offsetX")
                         (style!."offsetY"))) in
     let opacity := style!."opacity" in
     let speed := style!."scanlineSpeed" in
     let text (fontsize : value) (fontcolor alpha x y : string) :=
       render {| dt_text := style!."text"; dt_fontsize := fontsize;
                 dt_fontcolor := fontcolor; dt_alpha := alpha; dt_x := x; dt_y := y;
                 dt_font := style!."font"; dt_opts := "" |} in
     let size := style!."fontSize" in
     let effect (enabled : bool) (layers : list string) :=
       if enabled then layers else [] in
     Holo.layersOf style =
       (effect (truthy (style!."enableRainbow"))
          (imap (λ i color,
                   let index := int (Z.of_nat i) in
                   text size color
                     ($(mul opacity (dec 6 1)) +:+ "*abs(sin(t*" +:+ $speed +:+ "+"
                      +:+ $(mul index (dec 5 1)) +:+ "))")
                     (x +:+ "+" +:+ $index) (y +:+ "+" +:+ $index))
                [ "#ff0000"; "#ff7f00"; "#ffff00"; "#00ff00"; "#0000ff"; "#4b0082";
                  "#9400d3" ])
        ++ effect (gt_num (style!."chromaticAberration") (Num.ofZ 0))
             [ text size "#ff0000" $(mul opacity (dec 7 1))
                 (x +:+ "-" +:+ $(style!."chromaticAberration")) y;
               text size "#00ff00" $(mul opacity (dec 7 1)) x y;
               text size "#0000ff" $(mul opacity (dec 7 1))
                 (x +:+ "+" +:+ $(style!."chromaticAberration")) y ]
        ++ effect (truthy (style!."interferencePattern"))
             [ text (add size (int 2)) $(style!."primaryColor")
                 ($(mul opacity (dec 4 1)) +:+ "*abs(sin(t*" +:+ $(mul speed (int 3))
                  +:+ "))")
                 x y ]
        ++ effect (truthy (style!."enableGlitch"))
             [ text size $(style!."secondaryColor")
                 ($opacity +:+ "*if(mod(floor(t*" +:+ $(mul speed (int 4))
                  +:+ "),8),1,0.3)")
                 (x +:+ "+" +:+ $(mul (style!."glitchIntensity") (int 10))
                  +:+ "*sin(t*" +:+ $(mul speed (int 5)) +:+ ")")
                 (y +:+ "+" +:+ $(mul (style!."glitchIntensity") (int 5))
                  +:+ "*cos(t*" +:+ $(mul speed (int 7)) +:+ ")") ]
        ++ effect (truthy (style!."prismEffect"))
             (imap (λ i color,
                      let index := int (Z.of_nat i) in
                      text size $color
                        ($(mul opacity (dec 8 1)) +:+ "*abs(sin(t*" +:+ $speed +:+ "+"
                         +:+ $index +:+ "))")
                        (x +:+ "+" +:+ $(mul index (int 2)))
                        (y +:+ "+" +:+ $(mul index (int 2))))
                   [ style!."primaryColor"; style!."secondaryColor";
                     style!."tertiaryColor"; style!."accentColor" ])
        ++ effect (truthy (style!."enableFlicker"))
             [ text size $(style!."primaryColor")
                 ($opacity +:+ "*if(mod(floor(t*" +:+ $(mul speed (int 8))
                  +:+ "),3),1,0.1)")
                 x y ])%list)
  ∧ (length (Holo.layersOf style) =
       (Holo.layersIf (truthy (style!."enableRainbow")) 7
        + Holo.layersIf (gt_num (style!."chromaticAberration") (Num.ofZ 0)) 3
        + Holo.layersIf (truthy (style!."interferencePattern")) 1
        + Holo.layersIf (truthy (style!."enableGlitch")) 1
        + Holo.layersIf (truthy (style!."prismEffect")) 4
        + Holo.layersIf (truthy (style!."enableFlicker")) 1)%nat
     ∧ (truthy (style!."enableFlicker") = true →
        last (Holo.layersOf style) =
        Some (Holo.flickerLayer style (Holo.positionOf style)))
     ∧ (truthy (style!."prismEffect") = true →
        truthy (style!."enableFlicker") = false →
        last (Holo.layersOf style) =
        Some (Holo.prismLayer style (Holo.positionOf style) 3 (style!."accentColor")))
     ∧ (truthy (style!."enableRainbow") = false →
        gt_num (style!."chromaticAberration") (Num.ofZ 0) = false →
        truthy (style!."interferencePattern") = false →
        truthy (style!."enableGlitch") = false →
        truthy (style!."prismEffect") = false →
        truthy (style!."enableFlicker") = false →
        Holo.layersOf style = [] ∧ Holo._buildHolographicFilter style = "")).
Proof.
  split; [| split ].
  - rewrite neon_layers_view. split; [ reflexivity |].
    split; [ apply last_snoc_list |].
    split; [ apply neon_mainText_isTextOp | reflexivity ].
  - cbv zeta. unfold Holo.layersOf, push, pushAll. cbv zeta.
    destruct (truthy (style!."enableRainbow")),
      (gt_num (style!."chromaticAberration") (Num.ofZ 0)),
      (truthy (style!."interferencePattern")), (truthy (style!."enableGlitch")),
      (truthy (style!."prismEffect")), (truthy (style!."enableFlicker"));
      reflexivity.
  - split; [ apply holo_layers_length |].
    split; [ apply holo_last_flicker |].
    split; [ apply holo_last_prism | apply holo_all_off ].
Qed.

Lemma main_text_last_witness :
  last (Neon.layersOf (<["blinkEffect" := VBool true]> (<["opacity" := int 1]> Neon.defaultStyle))) =
    Some (Neon.mainText (<["blinkEffect" := VBool true]> (<["opacity" := int 1]> Neon.defaultStyle)))
  ∧ last (Holo.layersOf Holo.defaultStyle) =
    Some (Holo.prismLayer Holo.defaultStyle (Holo.positionOf Holo.defaultStyle) 3
            (Holo.defaultStyle!."accentColor"))
  ∧ Holo.layersOf
      (<["enableFlicker" := VBool true]>
         (<["enableGlitch" := VBool true]> (spread2 Holo.defaultStyle Holo.allEffectsOff))) =
    [ "drawtext=text='HOLOGRAM':fontsize=50:fontcolor=#ff00ff@0.8*if(mod(floor(t*8),8),1,0.3):x=(w-tw)/2+3*sin(t*10):y=(h-th)/2+1.5*cos(t*14):font='Arial Bold'";
      "drawtext=text='HOLOGRAM':fontsize=50:fontcolor=#00ffff@0.8*if(mod(floor(t*16),3),1,0.1):x=(w-tw)/2:y=(h-th)/2:font='Arial Bold'" ].
Proof.
  split; [| split ].
  - apply (main_text_last
             (<["blinkEffect" := VBool true]> (<["opacity" := int 1]> Neon.defaultStyle))).
  - apply (main_text_last Holo.defaultStyle); reflexivity.
  - pose proof (main_text_last
                  (<["enableFlicker" := VBool true]>
                     (<["enableGlitch" := VBool true]>
                        (spread2 Holo.defaultStyle Holo.allEffectsOff)))) as (_ & Hlayers & _).
    cbv zeta in Hlayers. etrans; [ exact Hlayers |]. vm_compute. reflexivity.
Defined.

(** The main text of a blinking neon style. *)
Example neon_blink_main_text :
  Neon.mainText (<["blinkEffect" := VBool true]> (<["opacity" := int 1]> Neon.defaultStyle)) =
  "drawtext=text='NEON':fontsize=52:fontcolor=#00ffff@if(mod(floor(t*1),2),1,0.3):x=w-tw-40:y=40:font='Arial Bold':borderw=3:bordercolor=#ff00ff".
Proof. vm_compute. reflexivity. Qed.

(** ** The embossed shadow of the vintage styler *)

(** The image filter shifts the anchor by the shadow offset on both axes,
    and both filters draw the shadow at 0.6 of the opacity. *)
Lemma vintage_static_emboss (style : obj) :
  let position := Vintage.positionOf style in
  let shadow := Vintage.staticEmboss style position in
  dt_x shadow = $(pos_x position) +:+ "+" +:+ $(style!."shadowOffset")
  ∧ dt_y shadow = $(pos_y position) +:+ "+" +:+ $(style!."shadowOffset")
  ∧ dt_alpha shadow = $(mul (style!."opacity") (dec 6 1)).
Proof. cbv zeta. repeat split. Qed.

Lemma vintage_video_emboss_alpha (style : obj) (shadow : drawtext) :
  Vintage.videoEmboss style (Vintage.positionOf style) = Normal shadow →
  dt_alpha shadow = $(mul (style!."opacity") (dec 6 1)).
Proof.
  unfold Vintage.videoEmboss, Vintage.embossCoordinate.
  destruct (callToString (pos_x (Vintage.positionOf style))) as [sx|]; [| discriminate ].
  destruct (callToString (pos_y (Vintage.positionOf style))) as [sy|]; [| discriminate ].
  intros [= <-]. reflexivity.
Qed.

(** In the video filter a coordinate given by a formula is lost: [parseInt]
    of a string that does not start with a number is [NaN].  Only the
    anchors on the left edge keep a numeric [x]. *)
Lemma vintage_video_emboss_symbolic (style : obj) (anchor : string) :
  style!."position" = VStr anchor →
  anchor ∈ [ "top-right"; "bottom-right"; "center"; "top-center"; "bottom-center" ] →
  is_string (style!."shadowOffset") = false →
  match Vintage.videoEmboss style (Vintage.positionOf style) with
  | Normal shadow => dt_x shadow = "NaN"
  | Throw _ => True
  end.
Proof.
  intros Hpos Hanchor Hoff. unfold Vintage.positionOf. rewrite Hpos.
  unfold Vintage.videoEmboss.
  assert (Vintage.embossCoordinate style
            (pos_x (Vintage._calculatePosition (VStr anchor)
                      (style!."offsetX") (style!."offsetY"))) =
          Normal (VNum NaN)) as ->.
  { repeat (apply elem_of_cons in Hanchor as [->|Hanchor];
            [ unfold Vintage.embossCoordinate, add; cbn; by rewrite Hoff |]).
    by apply elem_of_nil in Hanchor. }
  cbn.
  by destruct (Vintage.embossCoordinate style _).
Qed.

Lemma vintage_video_emboss_centered (style : obj) :
  style!."position" = VStr "center" →
  is_string (style!."shadowOffset") = false →
  ∃ shadow,
    Vintage.videoEmboss style (Vintage.positionOf style) = Normal shadow
    ∧ dt_x shadow = "NaN" ∧ dt_y shadow = "NaN".
Proof.
  intros Hpos Hoff. unfold Vintage.positionOf. rewrite Hpos.
  eexists. split; [ reflexivity |].
  unfold add; cbn. rewrite Hoff. split; reflexivity.
Qed.

(** The main text closes the vintage pipelines, video and image. *)
Lemma vintage_main_last (style : obj) :
  last (Vintage.staticFiltersOf style) =
    Some (Vintage._buildMainVintageText style (Vintage.positionOf style))
  ∧ ∀ filters, Vintage.filtersOf style = Normal filters →
      last filters = Some (Vintage._buildMainVintageText style (Vintage.positionOf style)).
Proof.
  split.
  - unfold Vintage.staticFiltersOf, push. apply last_snoc_list.
  - intros filters. unfold Vintage.filtersOf, push. cbv zeta.
    destruct (truthy (style!."enableEmboss")).
    + destruct (Vintage.videoEmboss style _) as [shadow|e]; [| discriminate ].
      intros [= <-]. apply last_snoc_list.
    + intros [= <-]. apply last_snoc_list.
Qed.

(** C9. At the defaults of the vintage styler (anchor [bottom-center],
    shadow offset 3) the embossed shadow of the video filter is drawn at
    [x=NaN:y=NaN], not at the anchor shifted by 3 as in the image filter. *)
Theorem vintage_video_emboss_nan :
  (∃ shadow,
     Vintage.videoEmboss Vintage.defaultStyle (Vintage.positionOf Vintage.defaultStyle)
       = Normal shadow
     ∧ dt_x shadow = "NaN" ∧ dt_y shadow = "NaN")
  ∧ dt_x (Vintage.staticEmboss Vintage.defaultStyle
            (Vintage.positionOf Vintage.defaultStyle)) = "(w-tw)/2+3"
  ∧ dt_y (Vintage.staticEmboss Vintage.defaultStyle
            (Vintage.positionOf Vintage.defaultStyle)) = "h-th-50+3"
  ∧ Vintage._buildVintageFilter (<["opacity" := int 1]> Vintage.defaultStyle) =
    Normal "colorchannelmixer=.393:.769:.189:0:.349:.686:.168:0:.272:.534:.131,noise=alls=15:allf=t+u,drawbox=x=(w-tw)/2-16:y=h-th-50-8:w=tw+32:h=th+16:color=#2f4f2f@0.3:t=4,drawtext=text='VINTAGE':fontsize=48:fontcolor=#8b4513@0.6:x=NaN:y=NaN:font='Times New Roman Bold',drawtext=text='VINTAGE':fontsize=49:fontcolor=#2f4f2f@0.3:x=(w-tw)/2:y=h-th-50:font='Times New Roman Bold',drawtext=text='VINTAGE':fontsize=48:fontcolor=#d4af37@1:x=(w-tw)/2:y=h-th-50:font='Times New Roman Bold':borderw=4:bordercolor=#8b4513@0.8".
Proof.
  split; [ eexists; split; [ vm_compute; reflexivity | split; reflexivity ] |].
  repeat split; vm_compute; reflexivity.
Qed.

(** With the anchor [top-left] and numeric offsets the video filter does
    shift the shadow. *)
Example vintage_video_emboss_top_left :
  dt_x <$> [ Vintage.staticEmboss (<["position" := VStr "top-left"]> Vintage.defaultStyle)
               (Vintage._calculatePosition (VStr "top-left") (int 40) (int 50)) ] =
    ["40+3"]
  ∧ Vintage.videoEmboss (<["position" := VStr "top-left"]> Vintage.defaultStyle)
      (Vintage._calculatePosition (VStr "top-left") (int 40) (int 50)) =
    Normal (Vintage.embossLayer (<["position" := VStr "top-left"]> Vintage.defaultStyle)
              "43" "53").
Proof. split; vm_compute; reflexivity. Qed.

(** ** Batches of variations *)

Section CreateVariationsFacts.

Context (pathJoin : string → string → string) (extname toLowerCase : string → string).
Context {World : Type}.
Context (applyToVideo applyToImage :
           string → string → option obj → World → Basic.outcome * World).

Local Abbreviation attempt :=
  (Basic.attempt pathJoin extname toLowerCase World applyToVideo applyToImage).
Local Abbreviation loop :=
  (Basic.loop pathJoin extname toLowerCase World applyToVideo applyToImage).
Local Abbreviation createVariations :=
  (Basic.createVariations pathJoin extname toLowerCase World applyToVideo applyToImage).
Local Abbreviation outputPathOf := (Basic.outputPathOf pathJoin extname).

(** What the loop body pushes, read off the way the render settled. *)
Lemma attempt_settled (inputPath outputDir : string) (i : nat) (variation : obj) (w : World) :
  let render :=
    if Basic._isVideoFile extname toLowerCase inputPath then applyToVideo else applyToImage in
  let settled := render inputPath (outputPathOf inputPath outputDir i) (Some variation) w in
  attempt inputPath outputDir i variation w =
  (match settled.1 with
   | Basic.Resolved _ => Basic.Succeeded (outputPathOf inputPath outputDir i) variation
   | Basic.Rejected message => Basic.Failed message variation
   end, settled.2).
Proof.
  cbv zeta. unfold Basic.attempt.
  destruct (Basic._isVideoFile extname toLowerCase inputPath).
  - by destruct (applyToVideo _ _ _ _) as [[path|message] w'].
  - by destruct (applyToImage _ _ _ _) as [[path|message] w'].
Qed.

(** The loop only ever appends to the results it starts from. *)
Lemma loop_results (inputPath outputDir : string) (todo : list obj) :
  ∀ (i : nat) (results : list Basic.variationResult) (w : World),
    loop inputPath outputDir i todo results w =
    ((results ++ (loop inputPath outputDir i todo [] w).1)%list,
     (loop inputPath outputDir i todo [] w).2).
Proof.
  induction todo as [|variation todo IH]; intros i results w; simpl.
  - by rewrite app_nil_r.
  - destruct (attempt inputPath outputDir i variation w) as [r w1].
    rewrite (IH (S i) (results ++ [r])%list), (IH (S i) [r]); simpl.
    by rewrite <- app_assoc.
Qed.

Lemma loop_length (inputPath outputDir : string) (todo : list obj) :
  ∀ (i : nat) (w : World),
    length (loop inputPath outputDir i todo [] w).1 = length todo.
Proof.
  induction todo as [|variation todo IH]; intros i w; simpl; [ done |].
  destruct (attempt inputPath outputDir i variation w) as [r w1].
  rewrite loop_results; simpl. by rewrite IH.
Qed.

(** Running the loop over [done ++ todo] is running it over [done] and then,
    from the state reached, over [todo]. *)
Lemma loop_app (inputPath outputDir : string) (done_ todo : list obj) :
  ∀ (i : nat) (w : World),
    loop inputPath outputDir i (done_ ++ todo)%list [] w =
    let first := loop inputPath outputDir i done_ [] w in
    loop inputPath outputDir (i + length done_) todo first.1 first.2.
Proof.
  induction done_ as [|variation done_ IH]; intros i w; simpl.
  - by rewrite Nat.add_0_r.
  - destruct (attempt inputPath outputDir i variation w) as [r w1].
    rewrite loop_results, IH; simpl.
    rewrite (loop_results _ _ done_ (S i) [r]); simpl.
    rewrite (loop_results _ _ todo _ (_ :: _)).
    rewrite (loop_results _ _ todo _ (loop inputPath outputDir (S i) done_ [] w1).1).
    simpl. by rewrite Nat.add_succ_r.
Qed.

(** C6. [createVariations] returns one entry per variation.  The entry of
    variation [i] is decided by the render of variation [i] alone, started in
    the state the first [i] renders left behind, whether or not any of them
    failed: a success entry with the output path when it resolved, a failure
    entry with the error message when it was rejected. *)
Theorem createVariations_isolates_failures
    (inputPath outputDir : string) (variations : list obj) (w : World) :
  let results := (createVariations inputPath outputDir variations w).1 in
  let render :=
    if Basic._isVideoFile extname toLowerCase inputPath then applyToVideo else applyToImage in
  length results = length variations
  ∧ ∀ (i : nat) (variation : obj),
      variations !! i = Some variation →
      let before := (createVariations inputPath outputDir (take i variations) w).2 in
      let outputPath := outputPathOf inputPath outputDir i in
      results !! i =
      Some (match (render inputPath outputPath (Some variation) before).1 with
            | Basic.Resolved _ => Basic.Succeeded outputPath variation
            | Basic.Rejected message => Basic.Failed message variation
            end).
Proof.
  cbv zeta. unfold Basic.createVariations.
  split; [ apply loop_length |].
  intros i variation Hi.
  rewrite <- (take_drop_middle variations i variation Hi) at 1.
  rewrite loop_app. cbv zeta. simpl.
  assert (length (take i variations) = i) as Htake.
  { apply length_take_le, Nat.lt_le_incl. by eapply lookup_lt_Some. }
  pose proof (loop_length inputPath outputDir (take i variations) 0 w) as Hlen.
  rewrite Htake in *.
  destruct (loop inputPath outputDir 0 (take i variations) [] w) as [done_ w1].
  simpl in *. rewrite attempt_settled. cbv zeta. simpl.
  rewrite loop_results; simpl.
  rewrite <- app_assoc, lookup_app_r by lia.
  rewrite Hlen, Nat.sub_diag. reflexivity.
Qed.

End CreateVariationsFacts.

Example createVariations_demo :
  Demo.createVariations "clip.mp4" "out" [Demo.good "a"; Demo.bad; Demo.good "b"] 0%nat =
  ([ Basic.Succeeded "out/watermarked_1.mp4" (Demo.good "a");
     Basic.Failed "ffmpeg exited with code 1" Demo.bad;
     Basic.Succeeded "out/watermarked_3.mp4" (Demo.good "b") ], 3%nat).
Proof. vm_compute. reflexivity. Qed.

Lemma createVariations_isolates_failures_witness :
  (Demo.createVariations "clip.mp4" "out" [Demo.good "a"; Demo.bad; Demo.good "b"] 0%nat).1
    !! 2%nat = Some (Basic.Succeeded "out/watermarked_3.mp4" (Demo.good "b"))
  ∧ length (Demo.createVariations "clip.mp4" "out"
              [Demo.good "a"; Demo.bad; Demo.good "b"] 0%nat).1 = 3%nat.
Proof.
  pose proof (createVariations_isolates_failures Demo.pathJoin Demo.extname
                Demo.toLowerCase Demo.apply Demo.apply "clip.mp4" "out"
                [Demo.good "a"; Demo.bad; Demo.good "b"] 0%nat) as [Hlen Hentry].
  split; [ exact (Hentry 2%nat (Demo.good "b") eq_refl) | exact Hlen ].
Defined.

(** ** The reveal expression *)


(** The glow layer of the reveal fades in the same way, at rate 0.3 up
    to 0.4. *)
Example reveal_glow_spelling :
  Expr.show (Expr.reveal (Num.lit 3 1) (Num.lit 4 1)) = "min(t*0.3,0.4)".
Proof. reflexivity. Qed.




(** * Further properties of the stylers *)

(** ** Strings *)

Lemma append_assoc (a b c : string) : (a +:+ b) +:+ c = a +:+ (b +:+ c).
Proof.
  induction a as [|x a IH]; [ reflexivity |].
  change (String x ((a +:+ b) +:+ c) = String x (a +:+ (b +:+ c))). by rewrite IH.
Qed.

Lemma append_nil_r (a : string) : a +:+ "" = a.
Proof.
  induction a as [|x a IH]; [ reflexivity |].
  change (String x (a +:+ "") = String x a). by rewrite IH.
Qed.

Lemma append_length (a b : string) :
  String.length (a +:+ b) = (String.length a + String.length b)%nat.
Proof.
  induction a as [|x a IH]; [ reflexivity |].
  change (S (String.length (a +:+ b)) = S (String.length a + String.length b)).
  by rewrite IH.
Qed.

(** Two strings with the same tail appended are equal. *)
Lemma append_cancel_r (a b t : string) : a +:+ t = b +:+ t → a = b.
Proof.
  revert b. induction a as [|x a IH]; intros [|y b] Heq.
  - reflexivity.
  - apply (f_equal String.length) in Heq.
    change (String y b +:+ t) with (String y (b +:+ t)) in Heq.
    change ("" +:+ t) with t in Heq.
    simpl in Heq. rewrite append_length in Heq. lia.
  - apply (f_equal String.length) in Heq.
    change (String x a +:+ t) with (String x (a +:+ t)) in Heq.
    change ("" +:+ t) with t in Heq.
    simpl in Heq. rewrite append_length in Heq. lia.
  - change (String x (a +:+ t) = String y (b +:+ t)) in Heq.
    injection Heq as -> Heq. f_equal. by apply IH.
Qed.

Lemma has_char_append (c : ascii) (a b : string) :
  Str.has_char c (a +:+ b) = Str.has_char c a || Str.has_char c b.
Proof.
  induction a as [|x a IH]; [ reflexivity |].
  change (Ascii.eqb c x || Str.has_char c (a +:+ b) =
          Ascii.eqb c x || Str.has_char c a || Str.has_char c b).
  rewrite IH. by destruct (Ascii.eqb c x).
Qed.

(** ** Merging styles *)

Lemma spread2_union (a b : obj) : spread2 a b = b ∪ a.
Proof.
  apply map_eq. intros k. rewrite lookup_spread2, lookup_union.
  by destruct (b !! k), (a !! k).
Qed.

(** X1. Merging styles is associative, and merging the overrides into the
    defaults a second time changes nothing: a resolved style can be passed
    again as the overrides of the same styler. *)
Theorem spread2_assoc_idempotent (defaults overrides more : obj) :
  spread2 (spread2 defaults overrides) more = spread2 defaults (spread2 overrides more)
  ∧ spread2 defaults (spread2 defaults overrides) = spread2 defaults overrides
  ∧ Basic.resolveStyle (Some (Basic.resolveStyle (Some overrides))) =
    Basic.resolveStyle (Some overrides).
Proof.
  assert (∀ d o : obj, spread2 d (spread2 d o) = spread2 d o) as Hidem.
  { intros d o. apply map_eq. intros k. rewrite !lookup_spread2.
    by destruct (o !! k), (d !! k). }
  split; [| split; [ apply Hidem | apply Hidem ] ].
  apply map_eq. intros k. rewrite !lookup_spread2.
  by destruct (more !! k), (overrides !! k).
Qed.

(** ** Which keys a pipeline reads *)

(** Two styles that agree on a list of keys. *)
Definition agreeOn (keys : list string) (s1 s2 : obj) : Prop :=
  ∀ k, k ∈ keys → s1!.k = s2!.k.

Lemma agreeOn_insert (keys : list string) (style : obj) (k : string) (v : value) :
  k ∉ keys → agreeOn keys (<[k := v]> style) style.
Proof.
  intros Hk k' Hk'. unfold getp. rewrite lookup_insert_ne; [ done |].
  intros ->. by apply Hk.
Qed.

(** Rewrites the reads of the listed keys in [s1] into reads in [s2]. *)
Ltac frame_reads H :=
  repeat match goal with
  | |- context [ getp ?s ?k ] =>
      lazymatch type of H with
      | agreeOn _ s _ => rewrite (H k) by by_decide
      end
  end.

(** ** The image filter of the neon styler *)

Definition neonStaticKeys : list string :=
  [ "position"; "offsetX"; "offsetY"; "text"; "fontSize"; "glowIntensity";
    "glowColor"; "font"; "primaryColor"; "opacity"; "strokeWidth"; "secondaryColor" ].

(** X2. The image filter of the neon styler is three glow layers, of the
    font sizes of the video filter and opacities 0.15, 0.3 and 0.5, followed
    by the main text, always with its stroke.  It reads twelve keys of the
    style and no other: neither [blinkEffect], [enableDoubleStroke] nor
    [animationSpeed] changes it. *)
Theorem neon_static_filter (style : obj) :
  (∃ g1 g2 g3,
     Neon._buildStaticNeonFilter style =
       Str.join "," [ render g1; render g2; render g3;
                      render (Neon.main style (Neon.positionOf style) true) ]
     ∧ dt_fontsize <$> [g1; g2; g3] = dt_fontsize <$> Neon.glowLayers style
     ∧ alphaOf <$> [g1; g2; g3] = [Num.lit 15 2; Num.lit 3 1; Num.lit 5 1])
  ∧ (∀ style', agreeOn neonStaticKeys style style' →
       Neon._buildStaticNeonFilter style = Neon._buildStaticNeonFilter style')
  ∧ (∀ k v, k ∈ [ "blinkEffect"; "enableDoubleStroke"; "animationSpeed" ] →
       Neon._buildStaticNeonFilter (<[k := v]> style) = Neon._buildStaticNeonFilter style).
Proof.
  assert (∀ s s', agreeOn neonStaticKeys s s' →
            Neon._buildStaticNeonFilter s = Neon._buildStaticNeonFilter s') as Hframe.
  { intros s s' H. unfold Neon._buildStaticNeonFilter, Neon.glow, Neon.main.
    frame_reads H. reflexivity. }
  split; [| split; [ apply Hframe |] ].
  - exists
      (Neon.glow style (Neon.positionOf style)
         (add (style!."fontSize") (mul (style!."glowIntensity") (int 2))) "0.15"),
      (Neon.glow style (Neon.positionOf style)
         (add (style!."fontSize") (style!."glowIntensity")) "0.3"),
      (Neon.glow style (Neon.positionOf style) (add (style!."fontSize") (int 2)) "0.5").
    split; [| split; reflexivity ].
    unfold Neon._buildStaticNeonFilter, Neon.positionOf. cbv zeta.
    cbn [Str.join]. rewrite !append_assoc. reflexivity.
  - intros k v Hk. apply Hframe, agreeOn_insert.
    repeat (apply elem_of_cons in Hk as [->|Hk]; [ by_decide |]).
    by apply elem_of_nil in Hk.
Qed.

Lemma neon_static_filter_witness :
  Neon._buildStaticNeonFilter (<["blinkEffect" := VBool true]> Neon.defaultStyle) =
  Neon._buildStaticNeonFilter Neon.defaultStyle.
Proof.
  destruct (neon_static_filter Neon.defaultStyle) as (_ & _ & Hflags).
  apply Hflags. by_decide.
Defined.

Example neon_static_default :
  Neon._buildStaticNeonFilter Neon.defaultStyle =
  "drawtext=text='NEON':fontsize=68:fontcolor=#00ffff@0.15:x=w-tw-40:y=40:font='Arial Bold',drawtext=text='NEON':fontsize=60:fontcolor=#00ffff@0.3:x=w-tw-40:y=40:font='Arial Bold',drawtext=text='NEON':fontsize=54:fontcolor=#00ffff@0.5:x=w-tw-40:y=40:font='Arial Bold',drawtext=text='NEON':fontsize=52:fontcolor=#00ffff@0.85:x=w-tw-40:y=40:font='Arial Bold':borderw=3:bordercolor=#ff00ff".
Proof. vm_compute. reflexivity. Qed.

(** ** The pulsing filter *)

Lemma pulsingStyle_forced (customStyle : option obj) :
  (Neon.pulsingStyle customStyle)!."animationSpeed" = dec 15 1.
Proof.
  unfold Neon.pulsingStyle, getp.
  rewrite lookup_insert_ne by discriminate. by rewrite lookup_insert_eq.
Qed.

(** X3. Whatever the caller passes, the pulsing filter is two glow layers
    breathing at [sin(t*3)] and the main text pulsing at [sin(t*4.5)]; and
    overrides that differ only in [animationSpeed] or [blinkEffect] give the
    same style, hence the same filter. *)
Theorem pulsing_filter_rates (customStyle : option obj) :
  let style := Neon.pulsingStyle customStyle in
  (∃ g1 g2 m,
     Neon.pulsingFilter style = Str.join "," [render g1; render g2; render m]
     ∧ dt_alpha g1 = "0.4*(0.5+0.5*sin(t*3))"
     ∧ dt_alpha g2 = "0.4*(0.5+0.5*sin(t*3))"
     ∧ dt_alpha m = $(style!."opacity") +:+ "*(0.7+0.3*sin(t*4.5))"
     ∧ dt_fontsize m = style!."fontSize")
  ∧ (∀ k v, k ∈ [ "animationSpeed"; "blinkEffect" ] →
       Neon.pulsingStyle (Some (<[k := v]> (orEmpty customStyle))) = style).
Proof.
  cbv zeta. split.
  - unfold Neon.pulsingFilter. rewrite pulsingStyle_forced.
    eexists _, _, _. split; [ reflexivity |]. repeat split.
  - intros k v Hk. apply map_eq. intros j.
    unfold Neon.pulsingStyle, orEmpty. simpl.
    destruct (decide (j = "blinkEffect")) as [->|Hblink];
      [ by rewrite !lookup_insert_eq |].
    rewrite !(lookup_insert_ne _ "blinkEffect") by done.
    destruct (decide (j = "animationSpeed")) as [->|Hspeed];
      [ by rewrite !lookup_insert_eq |].
    rewrite !(lookup_insert_ne _ "animationSpeed") by done.
    rewrite !lookup_spread2, lookup_insert_ne; [ done |].
    intros ->.
    repeat (apply elem_of_cons in Hk as [->|Hk]; [ done |]).
    by apply elem_of_nil in Hk.
Qed.

Lemma pulsing_filter_rates_witness :
  Neon.pulsingFilter (Neon.pulsingStyle (Some (<["animationSpeed" := int 40]> ∅))) =
  Neon.pulsingFilter (Neon.pulsingStyle None).
Proof.
  destruct (pulsing_filter_rates None) as [_ Hsame].
  apply (f_equal Neon.pulsingFilter).
  apply (Hsame "animationSpeed" (int 40)). by_decide.
Defined.

(** ** The image filter of the holographic styler *)

Definition holoStaticKeys : list string :=
  [ "position"; "offsetX"; "offsetY"; "enableRainbow"; "chromaticAberration";
    "prismEffect"; "text"; "fontSize"; "font"; "opacity"; "primaryColor";
    "secondaryColor"; "tertiaryColor" ].

Lemma holo_static_frame (s s' : obj) :
  agreeOn holoStaticKeys s s' → Holo.staticLayersOf s = Holo.staticLayersOf s'.
Proof.
  intros H.
  unfold Holo.staticLayersOf, Holo.staticRainbowLayer, Holo.staticPrismLayer,
    Holo.staticChromaticLayers, Holo.layer, Holo.rainbowColors.
  cbn [imap]. frame_reads H. reflexivity.
Qed.

(** X4. The image filter of the holographic styler draws 7 rainbow, 3
    chromatic and 3 prism layers, each group when its effect is on; it never
    has more layers than the video filter of the same style (the video prism
    has a fourth, accent-coloured layer); and it reads thirteen keys of the
    style and no other: the interference, glitch and flicker flags and the
    scanline speed do not change it. *)
Theorem holo_static_layers (style : obj) :
  length (Holo.staticLayersOf style) =
    (Holo.layersIf (truthy (style!."enableRainbow")) 7
     + Holo.layersIf (gt_num (style!."chromaticAberration") (Num.ofZ 0)) 3
     + Holo.layersIf (truthy (style!."prismEffect")) 3)%nat
  ∧ (length (Holo.staticLayersOf style) ≤ length (Holo.layersOf style))%nat
  ∧ (∀ style', agreeOn holoStaticKeys style style' →
       Holo.staticLayersOf style = Holo.staticLayersOf style')
  ∧ (∀ k v,
       k ∈ [ "interferencePattern"; "enableGlitch"; "enableFlicker"; "scanlineSpeed";
             "glitchIntensity"; "accentColor" ] →
       Holo._buildStaticHolographicFilter (<[k := v]> style) =
       Holo._buildStaticHolographicFilter style).
Proof.
  assert (length (Holo.staticLayersOf style) =
    (Holo.layersIf (truthy (style!."enableRainbow")) 7
     + Holo.layersIf (gt_num (style!."chromaticAberration") (Num.ofZ 0)) 3
     + Holo.layersIf (truthy (style!."prismEffect")) 3)%nat) as Hlen.
  { unfold Holo.staticLayersOf, pushAll.
    destruct (truthy (style!."enableRainbow")),
      (gt_num (style!."chromaticAberration") (Num.ofZ 0)),
      (truthy (style!."prismEffect")); reflexivity. }
  split; [ exact Hlen |]. split; [| split; [ apply holo_static_frame |] ].
  - rewrite Hlen, holo_layers_length. unfold Holo.layersIf.
    destruct (truthy (style!."enableRainbow")),
      (gt_num (style!."chromaticAberration") (Num.ofZ 0)),
      (truthy (style!."interferencePattern")), (truthy (style!."enableGlitch")),
      (truthy (style!."prismEffect")), (truthy (style!."enableFlicker")); lia.
  - intros k v Hk. unfold Holo._buildStaticHolographicFilter. f_equal.
    apply holo_static_frame, agreeOn_insert.
    repeat (apply elem_of_cons in Hk as [->|Hk]; [ by_decide |]).
    by apply elem_of_nil in Hk.
Qed.

Lemma holo_static_layers_witness :
  Holo._buildStaticHolographicFilter (<["enableGlitch" := VBool false]> Holo.defaultStyle) =
  Holo._buildStaticHolographicFilter Holo.defaultStyle
  ∧ length (Holo.staticLayersOf Holo.defaultStyle) = 13%nat.
Proof.
  destruct (holo_static_layers Holo.defaultStyle) as (Hlen & _ & _ & Hflags).
  split; [ apply Hflags; by_decide | rewrite Hlen; reflexivity ].
Defined.

(** ** Pipelines that only draw text *)

Lemma Forall_isTextOp_imap {A} (f : nat → A → string) (l : list A) :
  (∀ i x, isTextOp (f i x) = true) → Forall (λ s, isTextOp s = true) (imap f l).
Proof.
  intros Hf. revert f Hf. induction l as [|x l IH]; intros f Hf; simpl.
  - constructor.
  - constructor; [ apply Hf | apply IH; intros i y; apply Hf ].
Qed.

(** X5. Every entry of the neon pipeline and of both holographic pipelines
    is a text-drawing operation: these stylers never emit a box, a colour
    filter or any other stage. *)
Theorem neon_holo_only_draw_text (style : obj) :
  Forall (λ s, isTextOp s = true) (Neon.layersOf style)
  ∧ Forall (λ s, isTextOp s = true) (Holo.layersOf style)
  ∧ Forall (λ s, isTextOp s = true) (Holo.staticLayersOf style).
Proof.
  split; [| split ].
  - rewrite neon_layers_view. apply Forall_app. split.
    + unfold Neon.glowLayers. repeat constructor.
    + repeat constructor. apply neon_mainText_isTextOp.
  - unfold Holo.layersOf, push, pushAll, Holo.rainbowLayer, Holo.chromaticLayers,
      Holo.interferenceLayer, Holo.glitchLayer, Holo.prismLayer, Holo.flickerLayer.
    cbv zeta.
    repeat match goal with
    | |- Forall _ (if ?b then _ else _) => destruct b
    | |- Forall _ (_ ++ _)%list => apply Forall_app; split
    | |- Forall _ (imap _ _) => apply Forall_isTextOp_imap; intros; apply render_isTextOp
    | |- Forall _ [] => constructor
    | |- Forall _ (_ :: _) => constructor; [ apply render_isTextOp |]
    end.
  - unfold Holo.staticLayersOf, pushAll, Holo.staticRainbowLayer,
      Holo.staticChromaticLayers, Holo.staticPrismLayer.
    cbv zeta.
    repeat match goal with
    | |- Forall _ (if ?b then _ else _) => destruct b
    | |- Forall _ (_ ++ _)%list => apply Forall_app; split
    | |- Forall _ (imap _ _) => apply Forall_isTextOp_imap; intros; apply render_isTextOp
    | |- Forall _ [] => constructor
    | |- Forall _ (_ :: _) => constructor; [ apply render_isTextOp |]
    end.
Qed.

(** ** When the vintage video filter throws *)

(** [undefined] and [null], the two values a property read throws on. *)
Definition nullish (v : value) : bool :=
  match v with VUndef | VNull => true | _ => false end.

Lemma callToString_nullish (v : value) :
  callToString v = if nullish v then callToString v else Normal $v.
Proof. by destruct v. Qed.

Lemma embossCoordinate_throws (style : obj) (c : value) :
  (∃ e, Vintage.embossCoordinate style c = Throw e) ↔ nullish c = true.
Proof.
  unfold Vintage.embossCoordinate.
  destruct c; simpl; split; try discriminate; eauto; by intros [e He].
Qed.

(** X6. Building the vintage video filter throws exactly when the emboss
    effect is on and the resolved anchor has an [undefined] or [null]
    coordinate; with emboss off, or with a named anchor and offsets that are
    neither [undefined] nor [null], a filter is always returned. *)
Theorem vintage_video_filter_throws (style : obj) :
  let position := Vintage.positionOf style in
  ((∃ e, Vintage._buildVintageFilter style = Throw e) ↔
     truthy (style!."enableEmboss") = true
     ∧ (nullish (pos_x position) = true ∨ nullish (pos_y position) = true))
  ∧ (∀ anchor, style!."position" = VStr anchor → anchor ∈ anchors →
       nullish (style!."offsetX") = false → nullish (style!."offsetY") = false →
       ∃ filter, Vintage._buildVintageFilter style = Normal filter).
Proof.
  cbv zeta.
  assert ((∃ e, Vintage._buildVintageFilter style = Throw e) ↔
     truthy (style!."enableEmboss") = true
     ∧ (nullish (pos_x (Vintage.positionOf style)) = true
        ∨ nullish (pos_y (Vintage.positionOf style)) = true)) as Hiff.
  { unfold Vintage._buildVintageFilter, Vintage.filtersOf, Vintage.videoEmboss.
    fold (Vintage.positionOf style). cbv zeta.
    destruct (truthy (style!."enableEmboss")).
    - pose proof (embossCoordinate_throws style (pos_x (Vintage.positionOf style))) as Hx.
      pose proof (embossCoordinate_throws style (pos_y (Vintage.positionOf style))) as Hy.
      destruct (Vintage.embossCoordinate style (pos_x (Vintage.positionOf style)))
        as [ex|e1]; simpl.
      + destruct (Vintage.embossCoordinate style (pos_y (Vintage.positionOf style)))
          as [ey|e2]; simpl.
        * split; [ by intros [e He] |].
          intros [_ [Hn|Hn]]; [ apply Hx in Hn as [e He] | apply Hy in Hn as [e He] ];
            discriminate.
        * split; [| eauto ]. intros _. split; [ done |]. right. apply Hy. eauto.
      + split; [| eauto ]. intros _. split; [ done |]. left. apply Hx. eauto.
    - simpl. split; [ by intros [e He] | by intros [? _] ]. }
  split; [ exact Hiff |].
  intros anchor Hpos Hanchor Hox Hoy.
  destruct (Vintage._buildVintageFilter style) as [filter|e] eqn:Hbuild; [ eauto |].
  exfalso. assert (∃ e0, Throw (A:=string) e = Throw e0) as Hthrow by eauto.
  apply Hiff in Hthrow as [_ Hnull].
  unfold Vintage.positionOf, Vintage._calculatePosition in Hnull. rewrite Hpos in Hnull.
  pose proof (calculatePosition_named "bottom-center" (style!."offsetX") (style!."offsetY"))
    as (H1 & H2 & H3 & H4 & H5 & H6 & H7).
  cbv zeta in *. unfold anchors in Hanchor.
  repeat (apply elem_of_cons in Hanchor as [->|Hanchor];
          [ rewrite ?H1, ?H2, ?H3, ?H4, ?H5, ?H6, ?H7 in Hnull; simpl in Hnull;
            rewrite ?Hox, ?Hoy in Hnull; by destruct Hnull |]).
  by apply elem_of_nil in Hanchor.
Qed.

Lemma vintage_video_filter_throws_witness :
  (∃ filter, Vintage._buildVintageFilter Vintage.defaultStyle = Normal filter)
  ∧ (∃ e, Vintage._buildVintageFilter
            (<["offsetX" := VNull]> (<["position" := VStr "top-left"]> Vintage.defaultStyle))
          = Throw e).
Proof.
  split.
  - apply (vintage_video_filter_throws Vintage.defaultStyle) with "bottom-center";
      [ reflexivity | by_decide | reflexivity | reflexivity ].
  - apply (vintage_video_filter_throws
             (<["offsetX" := VNull]> (<["position" := VStr "top-left"]> Vintage.defaultStyle))).
    split; [ reflexivity | left; reflexivity ].
Defined.

(** An anchor found through the prototype chain makes the video filter
    throw, while the image filter draws at [undefined]. *)
Example vintage_video_inherited_anchor :
  Vintage._buildVintageFilter (<["position" := VStr "valueOf"]> Vintage.defaultStyle) =
  Throw (TypeError "Cannot read properties of undefined (reading 'toString')").
Proof. vm_compute. reflexivity. Qed.

(** ** Configuration is never validated *)






(** ** Video and image filters of the vintage styler *)

(** X7. With the emboss effect off the vintage video filter never throws,
    and it is the image filter as soon as no grain is asked for and the
    vignette is off: noise, vignette and the way the embossed shadow is
    placed are all that tell the two apart. *)
Theorem vintage_video_is_static (style : obj) :
  truthy (style!."enableEmboss") = false →
  (∃ filters, Vintage.filtersOf style = Normal filters
     ∧ length (Vintage.staticFiltersOf style) ≤ length filters)%nat
  ∧ (gt_num (style!."noise") (Num.ofZ 0) = false → truthy (style!."vignette") = false →
     Vintage._buildVintageFilter style = Normal (Vintage._buildStaticVintageFilter style)).
Proof.
  intros Hemboss. split.
  - unfold Vintage.filtersOf, Vintage.staticFiltersOf, push. rewrite Hemboss. cbv zeta.
    eexists. split; [ reflexivity |].
    destruct (truthy (style!."sepia")), (gt_num (style!."noise") (Num.ofZ 0)),
      (truthy (style!."vignette")), (strict_eq_str (style!."borderStyle") "ornate"),
      (truthy (style!."enablePatina")); simpl; lia.
  - intros Hnoise Hvignette.
    unfold Vintage._buildVintageFilter, Vintage._buildStaticVintageFilter,
      Vintage.filtersOf, Vintage.staticFiltersOf.
    rewrite Hemboss, Hnoise, Hvignette. reflexivity.
Qed.

Lemma vintage_video_is_static_witness :
  let style :=
    <["enableEmboss" := VBool false]> (<["noise" := int 0]> Vintage.defaultStyle) in
  Vintage._buildVintageFilter style = Normal (Vintage._buildStaticVintageFilter style).
Proof.
  cbv zeta.
  apply (vintage_video_is_static
           (<["enableEmboss" := VBool false]> (<["noise" := int 0]> Vintage.defaultStyle)));
    reflexivity.
Defined.

(** ** The aged film effect *)

Definition agedFilmKeys : list string :=
  [ "position"; "offsetX"; "offsetY"; "noise"; "text"; "fontSize"; "shadowColor";
    "opacity"; "shadowOffset"; "font"; "primaryColor"; "borderWidth"; "patina" ].

Lemma agedFilm_frame (s s' : obj) :
  agreeOn agedFilmKeys s s' → Vintage.agedFilmEntries s = Vintage.agedFilmEntries s'.
Proof.
  intros H. unfold Vintage.agedFilmEntries, Vintage.embossLayer, Vintage.mathFloor.
  frame_reads H. reflexivity.
Qed.

Lemma agedFilmStyle_read (customStyle : option obj) (k : string) :
  k ∉ [ "sepia"; "noise"; "vignette"; "ageEffect" ] →
  (Vintage.agedFilmStyle customStyle)!.k =
  (spread2 Vintage.defaultStyle (orEmpty customStyle))!.k.
Proof.
  intros Hk. unfold Vintage.agedFilmStyle, getp.
  rewrite !lookup_insert_ne; [ done | | | |]; intros <-; apply Hk; by_decide.
Qed.

Lemma agedFilmStyle_noise (customStyle : option obj) :
  (Vintage.agedFilmStyle customStyle)!."noise" = dec 25 2.
Proof.
  unfold Vintage.agedFilmStyle, getp.
  do 2 (rewrite lookup_insert_ne by discriminate). by rewrite lookup_insert_eq.
Qed.

(** X8. The aged film pipeline always has the same six entries: sepia, the
    contrast curve, grain at strength 25, the vignette, the embossed shadow
    placed as in the image filter, and the main text.  Overrides of [sepia],
    [noise], [vignette] and [ageEffect] are overwritten, and the emboss,
    patina and border-style switches are not consulted. *)
Theorem aged_film_pipeline (customStyle : option obj) :
  let style := Vintage.agedFilmStyle customStyle in
  length (Vintage.agedFilmEntries style) = 6%nat
  ∧ Vintage.agedFilmEntries style !! 2%nat = Some "noise=alls=25:allf=t+u"
  ∧ Vintage.agedFilmEntries style !! 4%nat =
    Some (render (Vintage.staticEmboss style (Vintage.positionOf style)))
  ∧ (∀ k v,
       k ∈ [ "sepia"; "noise"; "vignette"; "ageEffect"; "enableEmboss"; "enablePatina";
             "borderStyle" ] →
       Vintage.agedFilmEntries
         (Vintage.agedFilmStyle (Some (<[k := v]> (orEmpty customStyle)))) =
       Vintage.agedFilmEntries style).
Proof.
  cbv zeta. split; [ reflexivity |]. split; [| split; [ reflexivity |] ].
  - unfold Vintage.agedFilmEntries. cbn [lookup list_lookup].
    rewrite agedFilmStyle_noise. reflexivity.
  - intros k v Hk. apply agedFilm_frame. intros j Hj.
    destruct (decide (j = "noise")) as [->|Hnoise].
    + by rewrite !agedFilmStyle_noise.
    + assert (j ∉ [ "sepia"; "noise"; "vignette"; "ageEffect" ]) as Hfree.
      { unfold agedFilmKeys in Hj.
        repeat (apply elem_of_cons in Hj as [->|Hj]; [ first [ done | by_decide ] |]).
        by apply elem_of_nil in Hj. }
      rewrite !agedFilmStyle_read by done. unfold getp, orEmpty. simpl.
      rewrite !lookup_spread2, lookup_insert_ne; [ done |].
      intros ->. unfold agedFilmKeys in Hj.
      repeat (apply elem_of_cons in Hk as [->|Hk];
              [ first [ done | revert Hj; by_decide ] |]).
      by apply elem_of_nil in Hk.
Qed.

Lemma aged_film_pipeline_witness :
  Vintage.agedFilmEntries
    (Vintage.agedFilmStyle (Some (<["noise" := int 0]> ∅))) =
  Vintage.agedFilmEntries (Vintage.agedFilmStyle None).
Proof.
  destruct (aged_film_pipeline None) as (_ & _ & _ & Hsame).
  apply (Hsame "noise" (int 0)). by_decide.
Defined.

(** ** Printing and reading integers *)

(** The value of a run of decimal digits read after [acc]. *)
Fixpoint uval (acc : Z) (d : Decimal.uint) : Z :=
  match d with
  | Decimal.Nil => acc
  | Decimal.D0 l => uval (acc * 10 + 0) l
  | Decimal.D1 l => uval (acc * 10 + 1) l
  | Decimal.D2 l => uval (acc * 10 + 2) l
  | Decimal.D3 l => uval (acc * 10 + 3) l
  | Decimal.D4 l => uval (acc * 10 + 4) l
  | Decimal.D5 l => uval (acc * 10 + 5) l
  | Decimal.D6 l => uval (acc * 10 + 6) l
  | Decimal.D7 l => uval (acc * 10 + 7) l
  | Decimal.D8 l => uval (acc * 10 + 8) l
  | Decimal.D9 l => uval (acc * 10 + 9) l
  end.

Lemma digits_string_of_uint (d : Decimal.uint) :
  ∀ (acc : Z) (k : nat),
    Str.digits acc k (NilEmpty.string_of_uint d) =
    (uval acc d, (k + Decimal.nb_digits d)%nat, "").
Proof.
  induction d as [|d IH|d IH|d IH|d IH|d IH|d IH|d IH|d IH|d IH|d IH]; intros acc k;
    [ simpl; by rewrite Nat.add_0_r | .. ];
    cbn -[Z.mul Z.add]; rewrite IH; f_equal; f_equal; lia.
Qed.

Lemma of_uint_acc_uval (d : Decimal.uint) :
  ∀ acc : positive, Z.pos (Pos.of_uint_acc d acc) = uval (Z.pos acc) d.
Proof.
  induction d as [|d IH|d IH|d IH|d IH|d IH|d IH|d IH|d IH|d IH|d IH]; intros acc;
    [ reflexivity | .. ];
    cbn [Pos.of_uint_acc uval]; rewrite IH; f_equal; lia.
Qed.

Lemma of_uint_uval (d : Decimal.uint) : Z.of_N (Pos.of_uint d) = uval 0 d.
Proof.
  induction d as [|d IH|d IH|d IH|d IH|d IH|d IH|d IH|d IH|d IH|d IH];
    [ reflexivity | exact IH | .. ];
    cbn [Pos.of_uint uval Z.of_N]; by rewrite of_uint_acc_uval.
Qed.

Lemma to_uint_not_nil (n : N) : N.to_uint n ≠ Decimal.Nil.
Proof.
  destruct n as [|p]; [ discriminate |]. apply DecimalPos.Unsigned.to_uint_nonnil.
Qed.

Lemma uval_to_uint (n : N) : uval 0 (N.to_uint n) = Z.of_N n.
Proof.
  rewrite <- of_uint_uval. f_equal. apply DecimalN.Unsigned.of_to.
Qed.

Lemma showN_digits (n : N) : Num.showN n = NilEmpty.string_of_uint (N.to_uint n).
Proof.
  unfold Num.showN, NilZero.string_of_uint.
  pose proof (to_uint_not_nil n). by destruct (N.to_uint n).
Qed.

(** [parseInt] reads back a run of digits, with or without a minus sign. *)
Lemma parseInt_digits (d : Decimal.uint) :
  d ≠ Decimal.Nil →
  parseInt (NilEmpty.string_of_uint d) = Num.ofZ (uval 0 d)
  ∧ parseInt (String "-" (NilEmpty.string_of_uint d)) = Num.ofZ (- uval 0 d).
Proof.
  assert (∀ d',
    parseInt (NilEmpty.string_of_uint d') =
      (let '(m, k, _) := Str.digits 0 0 (NilEmpty.string_of_uint d') in
       match k with O => NaN | S _ => Num.ofZ m end) →
    parseInt (String "-" (NilEmpty.string_of_uint d')) =
      (let '(m, k, _) := Str.digits 0 0 (NilEmpty.string_of_uint d') in
       match k with O => NaN | S _ => Num.ofZ (- m) end) →
    d' ≠ Decimal.Nil →
    parseInt (NilEmpty.string_of_uint d') = Num.ofZ (uval 0 d')
    ∧ parseInt (String "-" (NilEmpty.string_of_uint d')) = Num.ofZ (- uval 0 d')) as Hread.
  { intros d' -> -> Hd'. rewrite digits_string_of_uint.
    destruct d'; [ done | split; reflexivity .. ]. }
  intros Hd.
  destruct d as [|d|d|d|d|d|d|d|d|d|d]; [ done | | apply Hread; done .. ].
  destruct d as [|d|d|d|d|d|d|d|d|d|d]; apply Hread; done.
Qed.

(** Reading back a printed integer gives the integer. *)
Lemma parseInt_show_int (z : Z) :
  Num.safe z → parseInt (Num.show (Num.ofZ z)) = Num.ofZ z.
Proof.
  intros _. unfold Num.show, Num.ofZ. cbn [Num.canon Num.norm].
  change (Num.pow10 0) with 1. rewrite Z.div_1_r, showN_digits.
  destruct (parseInt_digits (N.to_uint (Z.to_N (Z.abs z))) (to_uint_not_nil _))
    as [Hpos Hneg].
  destruct (Z.ltb_spec z 0).
  - change ("-" +:+ ?s) with (String "-" s).
    rewrite Hneg, uval_to_uint, Z2N.id by lia. unfold Num.ofZ. f_equal. lia.
  - rewrite Hpos, uval_to_uint, Z2N.id by lia. unfold Num.ofZ. f_equal. lia.
Qed.

(** Distinct integers print differently. *)
Lemma show_int_inj (a b : Z) :
  Num.safe a → Num.safe b → Num.show (Num.ofZ a) = Num.show (Num.ofZ b) → a = b.
Proof.
  intros Ha Hb Heq. apply (f_equal parseInt) in Heq.
  rewrite (parseInt_show_int a Ha), (parseInt_show_int b Hb) in Heq. by injection Heq.
Qed.

(** The sum of two integers, when it stays in the range. *)
Lemma add_ofZ (a b : Z) :
  Num.safe a → Num.safe b → Num.safe (a + b) →
  Num.add (Num.ofZ a) (Num.ofZ b) = Num.ofZ (a + b).
Proof.
  intros _ _ _. unfold Num.add, Num.ofZ, Num.align. simpl. change (Num.pow10 0) with 1.
  f_equal. lia.
Qed.

(** ** The embossed shadow at the top-left anchor *)

Lemma embossCoordinate_integer (style : obj) (n so : Z) :
  Num.safe n → Num.safe so → Num.safe (n + so) →
  style!."shadowOffset" = int so →
  Vintage.embossCoordinate style (int n) = Normal (int (n + so)).
Proof.
  intros Hn Hs Hsum Hso. unfold Vintage.embossCoordinate, int.
  change (callToString (VNum (Num.ofZ n))) with (Normal (Num.show (Num.ofZ n))).
  unfold mbind, completion_bind, mret, completion_ret.
  rewrite (parseInt_show_int n Hn), Hso. unfold add, int.
  cbn [is_string orb toNumber]. by rewrite add_ofZ.
Qed.

(** X9. At the anchor [top-left], with offsets and a shadow offset that are
    integers of magnitude at most 2^53 whose sums stay in that range, the
    video filter of the vintage styler draws the embossed shadow at the
    offsets plus the shadow offset, computed as numbers: printing the offset
    and reading it back with [parseInt] loses nothing. *)
Theorem vintage_video_emboss_top_left_integers (style : obj) (ox oy so : Z) :
  Num.safe ox → Num.safe oy → Num.safe so →
  Num.safe (ox + so) → Num.safe (oy + so) →
  style!."position" = VStr "top-left" →
  style!."offsetX" = int ox → style!."offsetY" = int oy →
  style!."shadowOffset" = int so →
  Vintage.videoEmboss style (Vintage.positionOf style) =
  Normal (Vintage.embossLayer style (Num.show (Num.ofZ (ox + so)))
            (Num.show (Num.ofZ (oy + so)))).
Proof.
  intros Hx Hy Hs Hxs Hys Hpos Hox Hoy Hso.
  unfold Vintage.videoEmboss, Vintage.positionOf, Vintage._calculatePosition.
  rewrite Hpos.
  destruct (calculatePosition_named "bottom-center" (style!."offsetX") (style!."offsetY"))
    as [Htl _].
  cbv zeta in Htl. rewrite Htl, Hox, Hoy. simpl pos_x. simpl pos_y.
  rewrite (embossCoordinate_integer style ox so), (embossCoordinate_integer style oy so)
    by done.
  reflexivity.
Qed.

Lemma vintage_video_emboss_top_left_integers_witness :
  Vintage.videoEmboss
    (<["position" := VStr "top-left"]> (<["offsetX" := int (-12)]> Vintage.defaultStyle))
    (Vintage.positionOf
       (<["position" := VStr "top-left"]> (<["offsetX" := int (-12)]> Vintage.defaultStyle))) =
  Normal (Vintage.embossLayer
            (<["position" := VStr "top-left"]> (<["offsetX" := int (-12)]> Vintage.defaultStyle))
            "-9" "53").
Proof.
  apply (vintage_video_emboss_top_left_integers
           (<["position" := VStr "top-left"]> (<["offsetX" := int (-12)]> Vintage.defaultStyle))
           (-12) 50 3); first [ reflexivity | unfold Num.safe; simpl; lia ].
Defined.

(** ** More on batches of variations *)

Section CreateVariationsMore.

Context (pathJoin : string → string → string) (extname toLowerCase : string → string).
Context {World : Type}.
Context (applyToVideo applyToImage :
           string → string → option obj → World → Basic.outcome * World).

Local Abbreviation attempt :=
  (Basic.attempt pathJoin extname toLowerCase World applyToVideo applyToImage).
Local Abbreviation loop :=
  (Basic.loop pathJoin extname toLowerCase World applyToVideo applyToImage).
Local Abbreviation createVariations :=
  (Basic.createVariations pathJoin extname toLowerCase World applyToVideo applyToImage).
Local Abbreviation outputPathOf := (Basic.outputPathOf pathJoin extname).

Lemma attempt_shape (inputPath outputDir : string) (i : nat) (variation : obj) (w : World) :
  Basic.variationOf (attempt inputPath outputDir i variation w).1 = variation
  ∧ ∀ path v, (attempt inputPath outputDir i variation w).1 = Basic.Succeeded path v →
      path = outputPathOf inputPath outputDir i.
Proof.
  rewrite (attempt_settled pathJoin extname toLowerCase applyToVideo applyToImage).
  cbv zeta. simpl.
  destruct (_ inputPath _ (Some variation) w).1 as [p|m]; simpl.
  - split; [ done |]. by intros path v [= <- _].
  - split; [ done |]. by intros path v [=].
Qed.

(** The entry at index [j] of a run of the loop that starts at index [i]
    was pushed by the attempt for index [i + j]. *)
Lemma loop_lookup (inputPath outputDir : string) (todo : list obj) :
  ∀ (i : nat) (w : World) (j : nat) (r : Basic.variationResult),
    (loop inputPath outputDir i todo [] w).1 !! j = Some r →
    ∃ variation w', todo !! j = Some variation
      ∧ r = (attempt inputPath outputDir (i + j) variation w').1.
Proof.
  induction todo as [|variation todo IH]; intros i w j r; simpl; [ done |].
  destruct (attempt inputPath outputDir i variation w) as [r0 w1] eqn:Hattempt.
  rewrite (loop_results pathJoin extname toLowerCase applyToVideo applyToImage).
  simpl. destruct j as [|j]; simpl.
  - intros [= <-]. exists variation, w. by rewrite Nat.add_0_r, Hattempt.
  - intros Hr. apply IH in Hr as (v & w' & Hv & ->).
    exists v, w'. split; [ done |]. by rewrite Nat.add_succ_r.
Qed.

(** X10. The results of a batch carry the variations of the batch, in
    order. *)
Theorem createVariations_keeps_variations
    (inputPath outputDir : string) (variations : list obj) (w : World) :
  Basic.variationOf <$> (createVariations inputPath outputDir variations w).1 = variations.
Proof.
  unfold Basic.createVariations. generalize 0%nat as i. revert w.
  induction variations as [|variation variations IH]; intros w i; simpl; [ done |].
  destruct (attempt inputPath outputDir i variation w) as [r w1] eqn:Hattempt.
  rewrite (loop_results pathJoin extname toLowerCase applyToVideo applyToImage).
  simpl. rewrite IH. f_equal.
  pose proof (attempt_shape inputPath outputDir i variation w) as [Hv _].
  by rewrite Hattempt in Hv.
Qed.

(** X11. The first [i] entries of a batch are the results of the batch of
    the first [i] variations alone: what comes later in a batch cannot
    change an earlier entry. *)
Theorem createVariations_prefix
    (inputPath outputDir : string) (variations : list obj) (w : World) (i : nat) :
  take i (createVariations inputPath outputDir variations w).1 =
  (createVariations inputPath outputDir (take i variations) w).1.
Proof.
  unfold Basic.createVariations.
  rewrite <- (take_drop i variations) at 1.
  rewrite (loop_app pathJoin extname toLowerCase applyToVideo applyToImage).
  cbv zeta.
  rewrite (loop_results pathJoin extname toLowerCase applyToVideo applyToImage). simpl.
  pose proof (loop_length pathJoin extname toLowerCase applyToVideo applyToImage
                inputPath outputDir (take i variations) 0 w) as Hlen.
  rewrite length_take in Hlen.
  destruct (decide (i ≤ length variations)%nat) as [Hle|Hgt].
  - rewrite take_app_le by lia. apply take_ge. lia.
  - rewrite drop_ge by lia. simpl. rewrite app_nil_r. apply take_ge. lia.
Qed.

(** The entries of a batch sit at the indices of the batch. *)
Lemma createVariations_lookup_lt (inputPath outputDir : string) (variations : list obj)
    (w : World) (i : nat) (r : Basic.variationResult) :
  (createVariations inputPath outputDir variations w).1 !! i = Some r →
  (i < length variations)%nat.
Proof.
  intros Hi. unfold Basic.createVariations in Hi.
  apply loop_lookup in Hi as (v & _ & Hv & _). by apply lookup_lt_Some in Hv.
Qed.

(** File names of different indices differ, below the largest array
    length. *)
Lemma fileNameOf_inj (inputPath : string) (i j : nat) :
  Z.of_nat i < 2 ^ 32 → Z.of_nat j < 2 ^ 32 →
  Basic.fileNameOf extname inputPath i = Basic.fileNameOf extname inputPath j → i = j.
Proof.
  intros Hi Hj Hname. unfold Basic.fileNameOf in Hname.
  apply (inj (String.app "watermarked_")) in Hname.
  apply append_cancel_r in Hname.
  unfold add, int in Hname. cbn [is_string orb toNumber] in Hname.
  assert (∀ n : nat, Z.of_nat n < 2 ^ 32 →
            Num.safe (Z.of_nat n) ∧ Num.safe 1 ∧ Num.safe (Z.of_nat n + 1)) as Hsafe
    by (intros n Hn; unfold Num.safe; lia).
  destruct (Hsafe i Hi) as (Hi0 & H1 & Hi1), (Hsafe j Hj) as (Hj0 & _ & Hj1).
  rewrite (add_ofZ _ _ Hi0 H1 Hi1), (add_ofZ _ _ Hj0 H1 Hj1) in Hname.
  cbn [toString] in Hname.
  apply show_int_inj in Hname; [ lia | done | done ].
Qed.

(** X12. In a batch of fewer than 2^32 variations (an array), when joining
    to the output directory keeps the generated file names
    [watermarked_<i+1>.<ext>] apart, two successful entries at different
    indices have different output paths: no variation overwrites the file
    of another. *)
Theorem createVariations_distinct_outputs
    (inputPath outputDir : string) (variations : list obj) (w : World)
    (i j : nat) (path_i path_j : string) (vi vj : obj) :
  Z.of_nat (length variations) < 2 ^ 32 →
  (∀ a b : nat,
     pathJoin outputDir (Basic.fileNameOf extname inputPath a) =
     pathJoin outputDir (Basic.fileNameOf extname inputPath b) →
     Basic.fileNameOf extname inputPath a = Basic.fileNameOf extname inputPath b) →
  (createVariations inputPath outputDir variations w).1 !! i =
    Some (Basic.Succeeded path_i vi) →
  (createVariations inputPath outputDir variations w).1 !! j =
    Some (Basic.Succeeded path_j vj) →
  i ≠ j →
  path_i = pathJoin outputDir (Basic.fileNameOf extname inputPath i)
  ∧ path_j = pathJoin outputDir (Basic.fileNameOf extname inputPath j)
  ∧ path_i ≠ path_j.
Proof.
  intros Hlen Hjoin Hi Hj Hij.
  pose proof (createVariations_lookup_lt _ _ _ _ _ _ Hi) as Hi_lt.
  pose proof (createVariations_lookup_lt _ _ _ _ _ _ Hj) as Hj_lt.
  unfold Basic.createVariations in *.
  apply loop_lookup in Hi as (v1 & w1 & _ & Hi).
  apply loop_lookup in Hj as (v2 & w2 & _ & Hj).
  symmetry in Hi, Hj.
  apply (attempt_shape inputPath outputDir) in Hi, Hj. simpl in Hi, Hj.
  subst path_i path_j. split; [ reflexivity |]. split; [ reflexivity |].
  intros Hsame. apply Hij. unfold Basic.outputPathOf in Hsame.
  apply (Hjoin i j) in Hsame. apply fileNameOf_inj in Hsame; [ done | lia | lia ].
Qed.

End CreateVariationsMore.

Lemma createVariations_distinct_outputs_witness :
  (Demo.createVariations "clip.mp4" "out" [Demo.good "a"; Demo.bad; Demo.good "b"] 0%nat).1
    !! 0%nat = Some (Basic.Succeeded "out/watermarked_1.mp4" (Demo.good "a"))
  ∧ (Demo.createVariations "clip.mp4" "out" [Demo.good "a"; Demo.bad; Demo.good "b"] 0%nat).1
    !! 2%nat = Some (Basic.Succeeded "out/watermarked_3.mp4" (Demo.good "b"))
  ∧ "out/watermarked_1.mp4" ≠ "out/watermarked_3.mp4".
Proof.
  split; [ reflexivity |]. split; [ reflexivity |].
  apply (createVariations_distinct_outputs Demo.pathJoin Demo.extname Demo.toLowerCase
           Demo.apply Demo.apply "clip.mp4" "out"
           [Demo.good "a"; Demo.bad; Demo.good "b"] 0%nat 0 2
           "out/watermarked_1.mp4" "out/watermarked_3.mp4" (Demo.good "a") (Demo.good "b"));
    [ simpl; lia | | reflexivity | reflexivity | lia ].
  intros a b Hab. unfold Demo.pathJoin in Hab.
  by apply (inj (String.app "out")), (inj (String.app "/")) in Hab.
Defined.

(** ** The aggregated preset table *)

Section PresetsFacts.

Context {A : Type} (presetsOf : A → option (list (string * obj))).

Local Abbreviation addPresets := (Downloader.addPresets).
Local Abbreviation getPresetStyles := (Downloader.getPresetStyles presetsOf).

(** Where an entry of the table can come from. *)
Definition suppliedBy (watermarkStyles : list (string * A)) (key : string) (entry : obj)
    (styleType : string) (styler : A) : Prop :=
  ∃ presets presetName preset,
    (styleType, styler) ∈ watermarkStyles
    ∧ presetsOf styler = Some presets
    ∧ (presetName, preset) ∈ presets
    ∧ key = styleType +:+ "_" +:+ presetName
    ∧ entry = Downloader.presetEntry styleType preset.

Lemma assign_lookup (allPresets : gmap string obj) (key : string) (entry : obj)
    (k : string) (e : obj) :
  Downloader.assign allPresets key entry !! k = Some e →
  (k = key ∧ e = entry) ∨ allPresets !! k = Some e.
Proof.
  unfold Downloader.assign. destruct (String.eqb key "__proto__"); [ by right |].
  destruct (decide (key = k)) as [->|Hne].
  - rewrite lookup_insert_eq. intros [= <-]. by left.
  - rewrite lookup_insert_ne by done. by right.
Qed.

Lemma assign_keeps (allPresets : gmap string obj) (key : string) (entry : obj) (k : string) :
  is_Some (allPresets !! k) → is_Some (Downloader.assign allPresets key entry !! k).
Proof.
  unfold Downloader.assign. destruct (String.eqb key "__proto__"); [ done |].
  destruct (decide (key = k)) as [->|Hne].
  - rewrite lookup_insert_eq. eauto.
  - by rewrite lookup_insert_ne.
Qed.

Lemma addPresets_lookup (styleType : string) (presets : list (string * obj)) :
  ∀ (allPresets : gmap string obj) (k : string) (e : obj),
    addPresets styleType presets allPresets !! k = Some e →
    allPresets !! k = Some e
    ∨ ∃ presetName preset,
        (presetName, preset) ∈ presets
        ∧ k = styleType +:+ "_" +:+ presetName
        ∧ e = Downloader.presetEntry styleType preset.
Proof.
  induction presets as [|[name preset] presets IH]; intros allPresets k e; simpl;
    [ by left |].
  intros He. apply IH in He as [He|(n & p & Hin & -> & ->)].
  - apply assign_lookup in He as [[-> ->]|He]; [| by left ].
    right. exists name, preset. split; [ apply list_elem_of_here | done ].
  - right. exists n, p. split; [ by apply list_elem_of_further | done ].
Qed.

Lemma addPresets_keeps (styleType : string) (presets : list (string * obj)) :
  ∀ (allPresets : gmap string obj) (k : string),
    is_Some (allPresets !! k) → is_Some (addPresets styleType presets allPresets !! k).
Proof.
  induction presets as [|[name preset] presets IH]; intros allPresets k Hk; simpl;
    [ done |].
  by apply IH, assign_keeps.
Qed.

Lemma addPresets_adds (styleType : string) (presets : list (string * obj)) :
  ∀ (allPresets : gmap string obj) (presetName : string) (preset : obj),
    (presetName, preset) ∈ presets →
    styleType +:+ "_" +:+ presetName ≠ "__proto__" →
    is_Some (addPresets styleType presets allPresets
               !! (styleType +:+ "_" +:+ presetName)).
Proof.
  induction presets as [|[name p] presets IH]; intros allPresets presetName preset Hin Hkey;
    [ by apply elem_of_nil in Hin |].
  simpl. apply elem_of_cons in Hin as [[= <- <-]|Hin]; [| by eapply IH ].
  apply addPresets_keeps. unfold Downloader.assign.
  destruct (String.eqb_spec (styleType +:+ "_" +:+ presetName) "__proto__"); [ done |].
  rewrite lookup_insert_eq. eauto.
Qed.

Lemma getPresetStyles_lookup (watermarkStyles : list (string * A)) :
  ∀ (key : string) (entry : obj),
    getPresetStyles watermarkStyles !! key = Some entry →
    ∃ styleType styler, suppliedBy watermarkStyles key entry styleType styler.
Proof.
  unfold Downloader.getPresetStyles.
  assert (∀ (done_ rest : list (string * A)) (acc : gmap string obj),
    (∀ key entry, acc !! key = Some entry →
       ∃ styleType styler, suppliedBy done_ key entry styleType styler) →
    ∀ key entry,
      foldl (λ allPresets '(styleType, styler),
               match presetsOf styler with
               | Some presets => addPresets styleType presets allPresets
               | None => allPresets
               end) acc rest !! key = Some entry →
      ∃ styleType styler, suppliedBy (done_ ++ rest)%list key entry styleType styler) as Hgen.
  { intros done_ rest. revert done_.
    induction rest as [|[st styler] rest IH]; intros done_ acc Hacc key entry Hkey.
    - rewrite app_nil_r. by apply Hacc.
    - simpl in Hkey.
      replace (done_ ++ (st, styler) :: rest)%list
        with ((done_ ++ [(st, styler)]) ++ rest)%list by by rewrite <- app_assoc.
      eapply IH; [| exact Hkey ].
      intros k e Hk.
      assert (acc !! k = Some e
              ∨ ∃ presets n p, presetsOf styler = Some presets ∧ (n, p) ∈ presets
                  ∧ k = st +:+ "_" +:+ n ∧ e = Downloader.presetEntry st p) as [Hold|Hnew].
      { destruct (presetsOf styler) as [presets|]; [| by left ].
        apply addPresets_lookup in Hk as [Hk|(n & p & Hin & -> & ->)]; [ by left |].
        right. by exists presets, n, p. }
      + apply Hacc in Hold as (st' & styler' & presets & n & p & Hin & Hrest).
        exists st', styler', presets, n, p. split; [| done ].
        apply elem_of_app. by left.
      + destruct Hnew as (presets & n & p & Hp & Hin & -> & ->).
        exists st, styler, presets, n, p. split; [| done ].
        apply elem_of_app. right. apply list_elem_of_here. }
  intros key entry Hkey. apply (Hgen [] watermarkStyles ∅); [| done ].
  intros k e. by rewrite lookup_empty.
Qed.

Lemma getPresetStyles_present (watermarkStyles : list (string * A)) :
  ∀ styleType styler presets presetName preset,
    (styleType, styler) ∈ watermarkStyles →
    presetsOf styler = Some presets →
    (presetName, preset) ∈ presets →
    styleType +:+ "_" +:+ presetName ≠ "__proto__" →
    is_Some (getPresetStyles watermarkStyles !! (styleType +:+ "_" +:+ presetName)).
Proof.
  unfold Downloader.getPresetStyles. generalize (∅ : gmap string obj) as acc.
  assert (∀ (rest : list (string * A)) (acc : gmap string obj) k,
    is_Some (acc !! k) →
    is_Some (foldl (λ allPresets '(styleType, styler),
               match presetsOf styler with
               | Some presets => addPresets styleType presets allPresets
               | None => allPresets
               end) acc rest !! k)) as Hkeep.
  { induction rest as [|[st s] rest IH]; intros acc k Hk; simpl; [ done |].
    apply IH. destruct (presetsOf s); [ by apply addPresets_keeps | done ]. }
  induction watermarkStyles as [|[st s] rest IH];
    intros acc styleType styler presets presetName preset Hin Hp Hpreset Hkey;
    [ by apply elem_of_nil in Hin |].
  simpl. apply elem_of_cons in Hin as [[= <- <-]|Hin]; [| by eapply IH ].
  apply Hkeep. rewrite Hp. by eapply addPresets_adds.
Qed.

(** X13. Every entry of the aggregated preset table was supplied by a
    registered styler: its key is the family name, an underscore and a
    preset name of that styler; it reads as that preset on every key but
    [styleType]; and its [styleType] is the family name, which [getStyler]
    resolves to the very styler that supplied the preset, never to the
    fallback.  Conversely every preset of every registered styler has an
    entry under its key. *)
Theorem getPresetStyles_entries (watermarkStyles : list (string * A)) :
  NoDup watermarkStyles.*1 →
  (∀ key entry,
     getPresetStyles watermarkStyles !! key = Some entry →
     ∃ styleType styler presets presetName preset,
       (styleType, styler) ∈ watermarkStyles
       ∧ presetsOf styler = Some presets
       ∧ (presetName, preset) ∈ presets
       ∧ key = styleType +:+ "_" +:+ presetName
       ∧ entry!."styleType" = VStr styleType
       ∧ (∀ K, K ≠ "styleType" → entry !! K = preset !! K)
       ∧ Downloader.getStyler (list_to_map watermarkStyles) (entry!."styleType") =
         Downloader.Styler styler)
  ∧ (∀ styleType styler presets presetName preset,
       (styleType, styler) ∈ watermarkStyles →
       presetsOf styler = Some presets →
       (presetName, preset) ∈ presets →
       styleType +:+ "_" +:+ presetName ≠ "__proto__" →
       is_Some (getPresetStyles watermarkStyles !! (styleType +:+ "_" +:+ presetName))).
Proof.
  intros Hnodup. split; [| apply getPresetStyles_present ].
  intros key entry Hkey.
  apply getPresetStyles_lookup in Hkey
    as (st & styler & presets & n & p & Hin & Hp & Hpreset & -> & ->).
  exists st, styler, presets, n, p.
  assert ((Downloader.presetEntry st p)!."styleType" = VStr st) as Htype.
  { unfold Downloader.presetEntry, getp. by rewrite lookup_insert_eq. }
  repeat (split; [ done |]). split.
  - intros K HK. unfold Downloader.presetEntry.
    rewrite lookup_insert_ne by done.
    rewrite lookup_copyDataProperties, lookup_empty. by destruct (p !! K).
  - rewrite Htype. unfold Downloader.getStyler, getComputed. simpl.
    by rewrite (elem_of_list_to_map_1 _ _ _ Hnodup Hin).
Qed.

End PresetsFacts.

Lemma getPresetStyles_entries_witness :
  ∃ entry styler,
    Downloader.getPresetStyles DemoRegistry.presetsOf DemoRegistry.watermarkStyles
      !! "neon_cyberpunk" = Some entry
    ∧ Downloader.getStyler (list_to_map DemoRegistry.watermarkStyles) (entry!."styleType") =
      Downloader.Styler styler.
Proof.
  assert (NoDup DemoRegistry.watermarkStyles.*1) as Hnodup by by_decide.
  destruct (getPresetStyles_entries DemoRegistry.presetsOf DemoRegistry.watermarkStyles Hnodup)
    as [Hentries _].
  destruct (Hentries "neon_cyberpunk"
              (Downloader.presetEntry "neon"
                 (list_to_map
                    [ ("text", VStr "CYBER"); ("primaryColor", VStr "#00ffff");
                      ("secondaryColor", VStr "#ff00ff"); ("glowColor", VStr "#00ffff");
                      ("fontSize", int 48); ("glowIntensity", int 10);
                      ("blinkEffect", VBool true); ("position", VStr "center") ]))
              eq_refl)
    as (st & styler & presets & n & p & Hin & Hp & Hpreset & Hkey & Htype & Hread & Hstyler).
  eexists _, styler. split; [ reflexivity | exact Hstyler ].
Defined.

Example getPresetStyles_demo_keys :
  dom (Downloader.getPresetStyles DemoRegistry.presetsOf DemoRegistry.watermarkStyles) =
  list_to_set [ "neon_cyberpunk"; "neon_retro"; "neon_electric"; "neon_minimal";
                "neon_synthwave" ].
Proof. by_decide. Qed.

(** ** Where the blink modulation lands *)

Lemma ascii_eqb_false (a b : ascii) : Ascii.eqb a b = false → a ≠ b.
Proof. intros H ->. by rewrite Ascii.eqb_refl in H. Qed.

Lemma substring_all (s : string) : String.substring 0 (String.length s) s = s.
Proof. induction s as [|c s IH]; [ reflexivity |]. simpl. by rewrite IH. Qed.

Lemma substring_append (a b : string) :
  String.substring (String.length a) (String.length b) (a +:+ b) = b.
Proof.
  induction a as [|c a IH]; [ apply substring_all |].
  change (String c a +:+ b) with (String c (a +:+ b)). simpl. exact IH.
Qed.

(** A pattern that starts the haystack is found at once. *)
Lemma split_first_here (c : ascii) (pattern rest : string) :
  Str.split_first (String c pattern) (String c pattern +:+ rest) = Some ("", rest).
Proof.
  change (String c pattern +:+ rest) with (String c (pattern +:+ rest)).
  cbn [Str.split_first].
  change (String c (pattern +:+ rest)) with (String c pattern +:+ rest).
  rewrite prefix_append, append_length, Nat.add_sub'.
  by rewrite substring_append.
Qed.

(** Characters other than the first of the pattern are skipped. *)
Lemma split_first_prefix (c : ascii) (pattern before rest : string) :
  Str.has_char c before = false →
  Str.split_first (String c pattern) (before +:+ rest) =
  match Str.split_first (String c pattern) rest with
  | Some (b, a) => Some (before +:+ b, a)
  | None => None
  end.
Proof.
  induction before as [|x before IH]; intros Hfree.
  - change ("" +:+ rest) with rest.
    by destruct (Str.split_first (String c pattern) rest) as [[b a]|].
  - simpl in Hfree. apply orb_false_elim in Hfree as [Hx Hfree].
    change (String x before +:+ rest) with (String x (before +:+ rest)).
    rewrite split_first_skip by by apply ascii_eqb_false.
    rewrite IH by done.
    by destruct (Str.split_first (String c pattern) rest) as [[b a]|].
Qed.

Lemma getSubstitution_cons (matched before after : string) (c : ascii) (repl : string) :
  Ascii.eqb "$" c = false →
  getSubstitution matched before after (String c repl) =
  String c (getSubstitution matched before after repl).
Proof.
  destruct c as [[] [] [] [] [] [] [] []]; intros Hc; try reflexivity; discriminate.
Qed.

(** A replacement text without [$] is inserted as it is. *)
Lemma getSubstitution_plain (matched before after repl : string) :
  Str.has_char "$" repl = false →
  getSubstitution matched before after repl = repl.
Proof.
  induction repl as [|c repl IH]; intros Hfree; [ reflexivity |].
  simpl in Hfree. apply orb_false_elim in Hfree as [Hc Hfree].
  rewrite getSubstitution_cons by done. by rewrite IH.
Qed.

Lemma replace_first_at (before pattern after repl : string) :
  Str.has_char "@" before = false →
  Str.has_char "$" repl = false →
  replace (before +:+ String "@" pattern +:+ after) (String "@" pattern) repl =
  before +:+ repl +:+ after.
Proof.
  intros Hbefore Hrepl. unfold replace.
  rewrite split_first_prefix, split_first_here by done.
  by rewrite append_nil_r, getSubstitution_plain.
Qed.

(** A rendered layer, cut before and after its opacity. *)
Definition beforeAlpha (l : drawtext) : string :=
  "drawtext=text='" +:+ $(dt_text l) +:+ "':fontsize=" +:+ $(dt_fontsize l)
  +:+ ":fontcolor=" +:+ dt_fontcolor l.

Definition afterAlpha (l : drawtext) : string :=
  ":x=" +:+ dt_x l +:+ ":y=" +:+ dt_y l +:+ ":font='" +:+ $(dt_font l) +:+ "'"
  +:+ dt_opts l.

Lemma render_cut (l : drawtext) :
  render l = beforeAlpha l +:+ String "@" (dt_alpha l) +:+ afterAlpha l.
Proof. unfold render, beforeAlpha, afterAlpha. rewrite !append_assoc. reflexivity. Qed.

(** X14. With the blink effect on, the main text of the neon pipeline
    carries the blink expression as its opacity, provided no [@] occurs in
    the text, the font size and the primary colour as they are spelled, and
    no [$] in the blink expression: the replacement rewrites the first
    [@opacity] of the layer, and under these conditions that is the
    opacity. *)
Theorem neon_blink_modulates_opacity (style : obj) :
  truthy (style!."blinkEffect") = true →
  Str.has_char "@" $(style!."text") = false →
  Str.has_char "@" $(style!."fontSize") = false →
  Str.has_char "@" $(style!."primaryColor") = false →
  Str.has_char "$" (Neon.blinkModulation style) = false →
  Neon.mainText style = render (withAlpha (Neon.mainLayer style) (Neon.blinkModulation style))
  ∧ last (Neon.layersOf style) =
    Some (render (withAlpha (Neon.mainLayer style) (Neon.blinkModulation style))).
Proof.
  intros Hblink Htext Hsize Hcolor Hdollar.
  assert (Neon.mainText style =
          render (withAlpha (Neon.mainLayer style) (Neon.blinkModulation style))) as Hmain.
  { unfold Neon.mainText. rewrite Hblink, !render_cut.
    change ("@" +:+ $(style!."opacity")) with (String "@" (dt_alpha (Neon.mainLayer style))).
    rewrite replace_first_at; [ reflexivity | | exact Hdollar ].
    unfold beforeAlpha. rewrite !has_char_append.
    change (dt_text (Neon.mainLayer style)) with (style!."text").
    change (dt_fontsize (Neon.mainLayer style)) with (style!."fontSize").
    change (dt_fontcolor (Neon.mainLayer style)) with ($(style!."primaryColor")).
    rewrite Htext, Hsize, Hcolor. reflexivity. }
  split; [ exact Hmain |].
  rewrite neon_layers_view, Hmain. apply last_snoc_list.
Qed.

Lemma neon_blink_modulates_opacity_witness :
  Neon.mainText (<["blinkEffect" := VBool true]> (<["opacity" := int 1]> Neon.defaultStyle)) =
  render (withAlpha
            (Neon.mainLayer
               (<["blinkEffect" := VBool true]> (<["opacity" := int 1]> Neon.defaultStyle)))
            "if(mod(floor(t*1),2),1,0.3)").
Proof.
  pose proof (neon_blink_modulates_opacity
                (<["blinkEffect" := VBool true]> (<["opacity" := int 1]> Neon.defaultStyle)))
    as Hblink.
  destruct Hblink as [Hmain _].
  1-5: vm_compute; reflexivity.
  rewrite Hmain. vm_compute. reflexivity.
Defined.

(** When the text itself holds [@] followed by the opacity, the replacement
    rewrites the text and the opacity stays constant. *)
Example neon_blink_rewrites_text :
  Neon.mainText
    (<["blinkEffect" := VBool true]>
       (<["opacity" := int 1]> (<["text" := VStr "ME@1"]> Neon.defaultStyle))) =
  "drawtext=text='ME@if(mod(floor(t*1),2),1,0.3)':fontsize=52:fontcolor=#00ffff@1:x=w-tw-40:y=40:font='Arial Bold':borderw=3:bordercolor=#ff00ff".
Proof. vm_compute. reflexivity. Qed.

(** ** The reveal pipeline *)

(** The product of two integers, when it stays in the range. *)
Lemma mul_ofZ (a b : Z) :
  Num.safe a → Num.safe b → Num.safe (a * b) →
  Num.mul (Num.ofZ a) (Num.ofZ b) = Num.ofZ (a * b).
Proof. reflexivity. Qed.

Lemma min_ofZ (a b : Z) :
  Num.safe a → Num.safe b →
  Num.min (Num.ofZ a) (Num.ofZ b) = Num.ofZ (Z.min a b).
Proof.
  intros _ _. unfold Num.min, Num.ofZ, Num.ltb, Num.align. simpl. change (Num.pow10 0) with 1.
  rewrite !Z.mul_1_r. destruct (Z.ltb_spec b a); f_equal; lia.
Qed.

(** X15. For a font size and a glow intensity that are integers of
    magnitude at most 2^53, with twice the glow intensity and the size of
    the glow layer in that range too, the reveal pipeline is the text layer,
    fading in along [min(t*0.5,opacity)], followed by one glow layer drawn
    over it, fading in along [min(t*0.3,0.4)]; the glow layer is larger than
    the text by twice the glow intensity, but by no more than 20. *)
Theorem reveal_glow_growth_capped (style : obj) (fontSize glowIntensity : Z) :
  Num.safe fontSize → Num.safe glowIntensity → Num.safe (glowIntensity * 2) →
  Num.safe (fontSize + Z.min 20 (glowIntensity * 2)) →
  style!."fontSize" = int fontSize →
  style!."glowIntensity" = int glowIntensity →
  ∃ text glow,
    Neon.revealFilter style = Str.join "," [render text; render glow]
    ∧ dt_fontsize text = int fontSize
    ∧ dt_alpha text = Neon.revealOpacity style
    ∧ dt_fontsize glow = int (fontSize + Z.min 20 (2 * glowIntensity))
    ∧ dt_alpha glow = "min(t*0.3,0.4)"
    ∧ fontSize + Z.min 20 (2 * glowIntensity) <= fontSize + 20.
Proof.
  intros Hfs Hgi Hgi2 Hsum Hsize Hglow. unfold Neon.revealFilter. cbv zeta.
  eexists _, _. split; [ reflexivity |].
  unfold Neon.glow. cbn [dt_fontsize dt_alpha]. rewrite Hsize, Hglow.
  split; [ reflexivity |]. split; [ reflexivity |]. split; [| split; [ reflexivity | lia ] ].
  unfold Neon.min20, mul, add, int. cbn [toNumber is_string orb].
  assert (Num.safe 2 ∧ Num.safe 20 ∧ Num.safe (Z.min 20 (glowIntensity * 2)))
    as (H2 & H20 & Hmin) by (unfold Num.safe in *; lia).
  rewrite (mul_ofZ _ _ Hgi H2 Hgi2), (min_ofZ _ _ H20 Hgi2),
    (add_ofZ _ _ Hfs Hmin Hsum).
  do 3 f_equal. lia.
Qed.

Lemma reveal_glow_growth_capped_witness :
  ∃ text glow,
    Neon.revealFilter (<["glowIntensity" := int 30]> Neon.defaultStyle) =
      Str.join "," [render text; render glow]
    ∧ dt_fontsize glow = int 72.
Proof.
  pose proof (reveal_glow_growth_capped (<["glowIntensity" := int 30]> Neon.defaultStyle)
                52 30) as Hcap.
  destruct Hcap as (text & glow & Hfilter & _ & _ & Hsize & _ & _).
  1-4: unfold Num.safe; simpl; lia.
  1-2: vm_compute; reflexivity.
  exists text, glow. split; [ exact Hfilter | exact Hsize ].
Defined.

(** ** The two discovery surfaces agree *)

Section DiscoveryFacts.

Context {A : Type} (presetsOf : A → option (list (string * obj))).

Lemma addPresets_no_proto (styleType : string) (presets : list (string * obj)) :
  ∀ allPresets : gmap string obj,
    allPresets !! "__proto__" = None →
    Downloader.addPresets styleType presets allPresets !! "__proto__" = None.
Proof.
  induction presets as [|[name preset] presets IH]; intros allPresets Hnone; simpl;
    [ done |].
  apply IH. unfold Downloader.assign.
  destruct (String.eqb_spec (styleType +:+ "_" +:+ name) "__proto__") as [Heq|Hne];
    [ done |].
  by rewrite lookup_insert_ne.
Qed.

Lemma getPresetStyles_no_proto (watermarkStyles : list (string * A)) :
  Downloader.getPresetStyles presetsOf watermarkStyles !! "__proto__" = None.
Proof.
  unfold Downloader.getPresetStyles.
  assert (∅ !! "__proto__" = (None : option obj)) as Hempty by apply lookup_empty.
  revert Hempty. generalize (∅ : gmap string obj) as acc.
  induction watermarkStyles as [|[st styler] rest IH]; intros acc Hacc; simpl; [ done |].
  apply IH. destruct (presetsOf styler); [ by apply addPresets_no_proto | done ].
Qed.

(** X16. The keys of the aggregated preset table are exactly the names
    [family_preset] for the families and preset names that
    [getAvailableStyles] lists, [__proto__] excepted: what one surface
    advertises, the other holds. *)
Theorem discovery_surfaces_agree (watermarkStyles : list (string * A)) (key : string) :
  key ∈ dom (Downloader.getPresetStyles presetsOf watermarkStyles) ↔
  key ≠ "__proto__"
  ∧ ∃ styleType presetNames presetName,
      (styleType, presetNames) ∈ Downloader.getAvailableStyles presetsOf watermarkStyles
      ∧ presetName ∈ presetNames
      ∧ key = styleType +:+ "_" +:+ presetName.
Proof.
  rewrite elem_of_dom. split.
  - intros [entry Hentry]. split.
    { intros ->. by rewrite getPresetStyles_no_proto in Hentry. }
    apply getPresetStyles_lookup in Hentry
      as (st & styler & presets & n & p & Hin & Hp & Hpreset & -> & _).
    exists st, presets.*1, n. split; [| split; [| done ] ].
    + unfold Downloader.getAvailableStyles. apply list_elem_of_fmap.
      exists (st, styler). by rewrite Hp.
    + apply list_elem_of_fmap. by exists (n, p).
  - intros [Hproto (st & names & n & Hlisted & Hn & ->)].
    unfold Downloader.getAvailableStyles in Hlisted.
    apply list_elem_of_fmap in Hlisted as ([st' styler] & [= <- ->] & Hin).
    destruct (presetsOf styler) as [presets|] eqn:Hp; [| by apply elem_of_nil in Hn ].
    apply list_elem_of_fmap in Hn as ([n' p] & -> & Hpreset).
    by eapply getPresetStyles_present.
Qed.

End DiscoveryFacts.

Example getAvailableStyles_demo :
  Downloader.getAvailableStyles DemoRegistry.presetsOf DemoRegistry.watermarkStyles =
  [ ("glitch", []);
    ("neon", [ "cyberpunk"; "retro"; "electric"; "minimal"; "synthwave" ]) ].
Proof. reflexivity. Qed.
